(** * 3Bay payment terminal: monitoring, broadcast and price cache

    A shallow embedding of [src/server.ts] (the WebSocket broadcast hub, the
    registry of active payment sessions, the transaction monitor and the
    [/initiate-payment] handler) and of [PriceCacheService], followed by the
    properties of the specification that concern them.

    The server is single-threaded: every callback runs to completion, and an
    [async] function gives up control only at an [await].  The embedding is
    therefore a transition system whose events are the callbacks Node.js can
    run (an HTTP request, the settlement of an awaited promise, a timer, a
    feed event, a socket event); each transition is the straight-line code
    between two suspension points. *)

From Stdlib Require Import ZArith QArith Bool List Lia.
From stdpp Require Import base option list strings gmap.

Local Open Scope Z_scope.

(* ===================================================================== *)
(** * Part I: definitions                                                *)
(* ===================================================================== *)

(** ** JavaScript numbers and values *)

(** A JavaScript number is a finite value, one of the two infinities or
    NaN.  Only the order of finite values is used by the code, so a finite
    double is kept as the rational it denotes. *)
Inductive jsnum : Type :=
  | NaN
  | PosInf
  | NegInf
  | Fin (q : Q).

Definition num_zero : jsnum := Fin 0%Q.

(** [a <= b] of JavaScript: false as soon as one side is NaN. *)
Definition num_le (a b : jsnum) : bool :=
  match a, b with
  | NaN, _ => false
  | _, NaN => false
  | NegInf, _ => true
  | _, PosInf => true
  | PosInf, _ => false
  | Fin _, NegInf => false
  | Fin x, Fin y => Qle_bool x y
  end.

(** [a >= b] of JavaScript. *)
Definition num_ge (a b : jsnum) : bool := num_le b a.

(** [a < b] of JavaScript. *)
Definition num_lt (a b : jsnum) : bool :=
  match a, b with
  | NaN, _ => false
  | _, NaN => false
  | PosInf, _ => false
  | _, NegInf => false
  | NegInf, _ => true
  | Fin _, PosInf => true
  | Fin x, Fin y => negb (Qle_bool y x)
  end.

Definition isNaN (a : jsnum) : bool :=
  match a with NaN => true | _ => false end.

Definition isFinite (a : jsnum) : bool :=
  match a with Fin _ => true | _ => false end.

(** Truthiness of a number: everything but NaN and (plus or minus) zero. *)
Definition num_truthy (a : jsnum) : bool :=
  match a with
  | NaN => false
  | Fin q => negb (Qeq_bool q 0)
  | _ => true
  end.

(** The values a parsed JSON body can hold in a field ([JUndefined] for a
    field that is missing). *)
Inductive jsval : Type :=
  | JUndefined
  | JNull
  | JBool (b : bool)
  | JNum (n : jsnum)
  | JStr (s : string)
  | JObject.

(** [typeof v === 'number'] *)
Definition typeof_number (v : jsval) : bool :=
  match v with JNum _ => true | _ => false end.

(** ** Messages pushed to the observers *)

Inductive MsgType : Type :=
  | status
  | payment_success
  | payment_failure
  | transaction_confirmed.

(** The texts of the messages.  The two template literals of the source are
    kept as templates: [TPreparing a] is
    [`Preparing for $${a.toFixed(2)} payment...`] and [TServerError m] is
    [`Server error: ${m}`]. *)
Inductive Text : Type :=
  | TLit (s : string)
  | TPreparing (a : jsnum)
  | TServerError (m : string).

(** The object handed to [broadcast]; absent fields are [None] / [false]. *)
Record Message : Type := mkMessage {
  msg_type : MsgType;
  msg_message : Text;
  msg_amount : option jsnum;
  msg_errorType : option string;
  msg_isError : bool
}.

Definition statusMsg (t : Text) : Message :=
  mkMessage status t None None false.
Definition statusErrorMsg (t : Text) : Message :=
  mkMessage status t None None true.
Definition failureMsg (t : Text) (errorType : option string) : Message :=
  mkMessage payment_failure t None errorType false.
Definition successMsg (t : Text) (a : jsnum) : Message :=
  mkMessage payment_success t (Some a) None false.
Definition confirmedMsg : Message :=
  mkMessage transaction_confirmed (TLit "Payment confirmed!") None None false.

Definition connectedMsg : Message :=
  statusMsg (TLit "Connected to payment terminal.").
Definition invalidAmountMsg : Message :=
  statusErrorMsg (TLit "Invalid amount received from UI.").
Definition invalidAddressMsg : Message :=
  statusErrorMsg (TLit "Invalid merchant address.").
Definition preparingMsg (a : jsnum) : Message :=
  statusMsg (TPreparing a).
Definition timeoutMsg : Message :=
  failureMsg (TLit "Payment timeout - no transaction detected")
             (Some "PAYMENT_TIMEOUT").
Definition monitoringErrorMsg : Message :=
  failureMsg (TLit "Failed to monitor transaction") (Some "MONITORING_ERROR").
Definition serverErrorMsg (m : string) : Message :=
  failureMsg (TServerError m) (Some "SERVER_ERROR").

(** ** The WebSocket clients *)

Inductive ReadyState : Type := CONNECTING | OPEN | CLOSING | CLOSED.

Definition is_open (r : ReadyState) : bool :=
  match r with OPEN => true | _ => false end.

(** One connected socket.  [ws_faulty] says whether [send] throws on it (the
    environment decides); [ws_inbox] collects what was delivered, oldest
    first. *)
Record Client : Type := mkClient {
  ws_id : nat;
  ws_readyState : ReadyState;
  ws_faulty : bool;
  ws_inbox : list Message
}.

(** What [client.send(data)] does: [None] when it throws. *)
Definition send (m : Message) (c : Client) : option Client :=
  if ws_faulty c then None
  else Some (mkClient (ws_id c) (ws_readyState c) (ws_faulty c)
                      (ws_inbox c ++ [m])).

(** The body of the [forEach] callback of [broadcast]: a socket that is not
    open is skipped, an exception of [send] is caught and logged. *)
Definition deliver (m : Message) (c : Client) : Client :=
  if is_open (ws_readyState c) then
    match send m c with
    | Some c' => c'
    | None => c
    end
  else c.

(** [clients.forEach(...)]: the set itself is left as it is. *)
Definition broadcast_clients (m : Message) (cs : list Client) : list Client :=
  map (deliver m) cs.

(** [clients.add(ws)] and [clients.delete(ws)] on the insertion-ordered set. *)
Definition has_client (i : nat) (cs : list Client) : bool :=
  existsb (fun c => Nat.eqb (ws_id c) i) cs.
Definition clients_add (c : Client) (cs : list Client) : list Client :=
  if has_client (ws_id c) cs then cs else cs ++ [c].
Definition clients_delete (i : nat) (cs : list Client) : list Client :=
  filter (fun c => ws_id c ≠ i) cs.

(** ** The state of the server *)

(** [interface PaymentSession]; the [NodeJS.Timeout] is the identifier of the
    timer. *)
Record PaymentSession : Type := mkSession {
  amount : jsnum;
  merchantAddress : string;
  startTime : Z;
  timeout : nat
}.

(** The closure handed to [AlchemyService.monitorTransactions]: it captures
    [merchantAddress], [amount] and [timeout] of the call of
    [monitorTransaction] that created it. *)
Record Watcher : Type := mkWatcher {
  w_address : string;
  w_amount : jsnum;
  w_timeout : nat
}.

(** A transaction event of the feed; only [tx.value] is read. *)
Record Tx : Type := mkTx { tx_value : jsnum }.

(** The result of [nfcApp.processPayment]. *)
Record PaymentResult : Type := mkResult {
  pr_success : bool;
  pr_message : string;
  pr_errorType : option string
}.

(** The JSON bodies the handler answers with. *)
Inductive ResBody : Type :=
  | BError (error : string)
  | BSuccess (message : string)
  | BFailure (message : string) (errorType : option string).

Record Response : Type := mkResponse {
  res_status : Z;
  res_body : ResBody
}.

(** The body of a request: [amount] is whatever JSON value arrived,
    [merchantAddress] is a string when present. *)
Record Body : Type := mkBody {
  b_amount : jsval;
  b_merchantAddress : option string
}.

(** An invocation of the handler parked at one of its two [await]s, with
    the local variables it still needs. *)
Inductive Cont : Type :=
  | AwaitMonitor (addr : string) (amt : jsnum) (tmo : nat)
  | AwaitInitiator (amt : jsnum).

(** The calls with an effect outside the function that makes them, in the
    order they are made.  [EUnsubscribe] is the call of the function that
    [AlchemyService.monitorTransactions] resolves to. *)
Inductive Effect : Type :=
  | ESetTimeout (t : nat) (addr : string)
  | EClearTimeout (t : nat)
  | ESet (addr : string)
  | EDelete (addr : string)
  | ESubscribe (addr : string)
  | EUnsubscribe (addr : string)
  | EBroadcast (m : Message)
  | EProcessPayment (amt : jsnum)
  | ERespond (rid : nat) (r : Response).

Record State : Type := mkState {
  clients : list Client;                      (* const clients *)
  activePayments : gmap string PaymentSession; (* const activePayments *)
  timers : gmap nat string;  (* pending timeouts, with the address captured *)
  nextTimer : nat;
  watchers : list Watcher;   (* callbacks subscribed to the feed *)
  suspended : gmap nat Cont; (* handler invocations waiting at an await *)
  nextReq : nat;
  trace : list Effect;       (* every effect so far, oldest first *)
  now : Z                    (* Date.now() *)
}.

Definition initial : State :=
  mkState [] ∅ ∅ 0%nat [] ∅ 0%nat [] 0.

Definition log (e : Effect) (st : State) : State :=
  mkState (clients st) (activePayments st) (timers st) (nextTimer st)
          (watchers st) (suspended st) (nextReq st) (trace st ++ [e]) (now st).

Definition with_clients (cs : list Client) (st : State) : State :=
  mkState cs (activePayments st) (timers st) (nextTimer st)
          (watchers st) (suspended st) (nextReq st) (trace st) (now st).

Definition with_payments (m : gmap string PaymentSession) (st : State) : State :=
  mkState (clients st) m (timers st) (nextTimer st)
          (watchers st) (suspended st) (nextReq st) (trace st) (now st).

Definition with_timers (m : gmap nat string) (n : nat) (st : State) : State :=
  mkState (clients st) (activePayments st) m n
          (watchers st) (suspended st) (nextReq st) (trace st) (now st).

Definition with_watchers (ws : list Watcher) (st : State) : State :=
  mkState (clients st) (activePayments st) (timers st) (nextTimer st)
          ws (suspended st) (nextReq st) (trace st) (now st).

Definition with_suspended (m : gmap nat Cont) (n : nat) (st : State) : State :=
  mkState (clients st) (activePayments st) (timers st) (nextTimer st)
          (watchers st) m n (trace st) (now st).

Definition with_now (t : Z) (st : State) : State :=
  mkState (clients st) (activePayments st) (timers st) (nextTimer st)
          (watchers st) (suspended st) (nextReq st) (trace st) t.

(** ** The primitives the code calls *)

(** [broadcast(message)] *)
Definition broadcast (m : Message) (st : State) : State :=
  log (EBroadcast m) (with_clients (broadcast_clients m (clients st)) st).

(** [setTimeout(cb, 300000)], where [cb] captures [addr]; the fresh timer is
    returned. *)
Definition setTimeout (addr : string) (st : State) : nat * State :=
  let t := nextTimer st in
  (t, log (ESetTimeout t addr)
          (with_timers (<[t := addr]> (timers st)) (S t) st)).

(** [clearTimeout(t)]: harmless on a timer that fired or was cleared. *)
Definition clearTimeout (t : nat) (st : State) : State :=
  log (EClearTimeout t) (with_timers (delete t (timers st)) (nextTimer st) st).

(** [activePayments.set(addr, s)] *)
Definition payments_set (addr : string) (s : PaymentSession) (st : State) : State :=
  log (ESet addr) (with_payments (<[addr := s]> (activePayments st)) st).

(** [activePayments.delete(addr)] *)
Definition payments_delete (addr : string) (st : State) : State :=
  log (EDelete addr) (with_payments (delete addr (activePayments st)) st).

(** [res.status(code).json(body)] of the request [rid]; the invocation is
    over. *)
Definition respond (rid : nat) (code : Z) (b : ResBody) (st : State) : State :=
  log (ERespond rid (mkResponse code b))
      (with_suspended (delete rid (suspended st)) (nextReq st) st).

(** The invocation [rid] stops at an [await]. *)
Definition suspend (rid : nat) (k : Cont) (st : State) : State :=
  with_suspended (<[rid := k]> (suspended st)) (nextReq st) st.

(** ** [monitorTransaction] *)

(** The callback of the timer set by [monitorTransaction]. *)
Definition onTimeout (addr : string) (st : State) : State :=
  payments_delete addr (broadcast timeoutMsg st).

(** The callback given to the feed. *)
Definition onTransaction (w : Watcher) (tx : Tx) (st : State) : State :=
  if num_ge (tx_value tx) (w_amount w) then
    broadcast confirmedMsg
      (payments_delete (w_address w) (clearTimeout (w_timeout w) st))
  else st.

(** [monitorTransaction] up to its [await]: the timer is armed, the session
    stored, and the subscription requested. *)
Definition monitorTransaction_begin (addr : string) (amt : jsnum) (st : State)
  : nat * State :=
  let start := now st in
  let '(t, st) := setTimeout addr st in
  let st := payments_set addr (mkSession amt addr start t) st in
  (t, log (ESubscribe addr) st).

(** The subscription is set up: the callback is now registered with the
    feed, and [monitorTransaction] returns the unsubscribe function. *)
Definition monitorTransaction_resolved (addr : string) (amt : jsnum) (t : nat)
    (st : State) : State :=
  with_watchers (watchers st ++ [mkWatcher addr amt t]) st.

(** The [catch] of [monitorTransaction]; the error is thrown again. *)
Definition monitorTransaction_catch (addr : string) (t : nat) (st : State)
  : State :=
  broadcast monitoringErrorMsg (payments_delete addr (clearTimeout t st)).

(** The part of [shutdown] under the comment "Clear all payment monitoring
    timeouts": [activePayments.forEach(s => clearTimeout(s.timeout))], then
    [activePayments.clear()]. *)
Definition shutdown_payments (st : State) : State :=
  with_payments ∅
    (foldr (λ kv s, clearTimeout (timeout kv.2) s) st
           (map_to_list (activePayments st))).

(** ** [initiatePaymentHandler] *)

(** What a [throw] or a rejected promise carries.  Reading a property of
    [null] or [undefined] throws a TypeError; of any other value the
    handler reads only [message], kept here as the text the template
    literal prints for it, and as [None] when the property is undefined or
    another value that JavaScript takes for false without being a string. *)
Inductive Thrown : Type :=
  | ThrownNullish
  | ThrownValue (message : option string).

(** [error.message || 'Internal server error during payment processing.']
    for an [error] that is neither [null] nor [undefined]. *)
Definition errorMessage (err : option string) : string :=
  match err with
  | Some m => if decide (m = "") then
                "Internal server error during payment processing."
              else m
  | None => "Internal server error during payment processing."
  end.

(** The invocation [rid] ends without an answer: an exception has left the
    handler, whose promise is rejected; the [unhandledRejection] listener
    of the process only logs. *)
Definition abandon (rid : nat) (st : State) : State :=
  with_suspended (delete rid (suspended st)) (nextReq st) st.

(** The [catch] of the handler.  Its second statement reads
    [error.message]: on [null] or [undefined] this throws, inside the
    [catch], before anything is broadcast or answered. *)
Definition handler_catch (rid : nat) (error : Thrown) (st : State) : State :=
  match error with
  | ThrownValue message =>
      respond rid 500 (BError "Internal server error")
              (broadcast (serverErrorMsg (errorMessage message)) st)
  | ThrownNullish => abandon rid st
  end.

Definition reject_amount (rid : nat) (st : State) : State :=
  respond rid 400 (BError "Invalid amount") (broadcast invalidAmountMsg st).

Definition reject_address (rid : nat) (st : State) : State :=
  respond rid 400 (BError "Invalid merchant address")
          (broadcast invalidAddressMsg st).

(** [paymentResult.errorType === 'PHONE_MOVED_TOO_QUICKLY' ? 409 : 500] *)
Definition failure_status (errorType : option string) : Z :=
  if decide (errorType = Some "PHONE_MOVED_TOO_QUICKLY") then 409 else 500.

Section Handler.

(** [AlchemyService.isEthereumAddress], which lives outside this code. *)
Variable isEthereumAddress : string → bool.

(** [!merchantAddress || !AlchemyService.isEthereumAddress(merchantAddress)] *)
Definition invalid_address (a : option string) : bool :=
  match a with
  | None => true
  | Some s => bool_decide (s = "") || negb (isEthereumAddress s)
  end.

(** [typeof amount !== 'number' || amount <= 0 || isNaN(amount)] *)
Definition invalid_amount (v : jsval) : bool :=
  match v with
  | JNum a => num_le a num_zero || isNaN a
  | _ => true
  end.

(** The handler from its entry to its first [await] (or to its early
    [return]). *)
Definition initiatePaymentHandler (body : Body) (st : State) : State :=
  let rid := nextReq st in
  let st := with_suspended (suspended st) (S rid) st in
  match b_amount body with
  | JNum amt =>
      if num_le amt num_zero || isNaN amt then reject_amount rid st
      else
        match b_merchantAddress body with
        | Some addr =>
            if bool_decide (addr = "") || negb (isEthereumAddress addr)
            then reject_address rid st
            else
              let st := broadcast (preparingMsg amt) st in
              let '(t, st) := monitorTransaction_begin addr amt st in
              suspend rid (AwaitMonitor addr amt t) st
        | None => reject_address rid st
        end
  | _ => reject_amount rid st
  end.

(** [await monitorTransaction(...)] returned: the initiator is called and
    awaited. *)
Definition handler_monitor_resolved (rid : nat) (addr : string) (amt : jsnum)
    (t : nat) (st : State) : State :=
  let st := monitorTransaction_resolved addr amt t st in
  suspend rid (AwaitInitiator amt) (log (EProcessPayment amt) st).

(** [await monitorTransaction(...)] threw: the [catch] of
    [monitorTransaction] has run and thrown the same value again. *)
Definition handler_monitor_rejected (rid : nat) (addr : string) (t : nat)
    (err : Thrown) (st : State) : State :=
  handler_catch rid err (monitorTransaction_catch addr t st).

(** [await nfcApp.processPayment(amount)] returned [r]. *)
Definition handler_initiator_resolved (rid : nat) (amt : jsnum)
    (r : PaymentResult) (st : State) : State :=
  if pr_success r then
    respond rid 200 (BSuccess (pr_message r))
            (broadcast (successMsg (TLit (pr_message r)) amt) st)
  else
    respond rid (failure_status (pr_errorType r))
            (BFailure (pr_message r) (pr_errorType r))
            (broadcast (failureMsg (TLit (pr_message r)) (pr_errorType r)) st).

(** ** The callbacks the event loop can run *)

Inductive Event : Type :=
  | Request (body : Body)
  | MonitorResolved (rid : nat)
  | MonitorRejected (rid : nat) (err : Thrown)
  | InitiatorResolved (rid : nat) (r : PaymentResult)
  | InitiatorThrew (rid : nat) (err : Thrown)
  | TimerFired (t : nat)
  | FeedTx (w : nat) (tx : Tx)
  | WsConnect (i : nat)
  | WsChange (i : nat) (r : ReadyState) (faulty : bool)
  | WsClose (i : nat)
  | WsError (i : nat)
  | Advance (dt : Z).

(** The socket [i] changes its state without its [close] event having been
    delivered yet. *)
Definition ws_change (i : nat) (r : ReadyState) (faulty : bool) (c : Client)
  : Client :=
  if Nat.eqb (ws_id c) i then mkClient (ws_id c) r faulty (ws_inbox c) else c.

(** One callback run to completion; [None] when the event cannot happen in
    this state (a timer that is not pending, a promise nobody awaits, a
    callback that is not subscribed). *)
Definition step (st : State) (ev : Event) : option State :=
  match ev with
  | Request body => Some (initiatePaymentHandler body st)
  | MonitorResolved rid =>
      match suspended st !! rid with
      | Some (AwaitMonitor addr amt t) =>
          Some (handler_monitor_resolved rid addr amt t st)
      | _ => None
      end
  | MonitorRejected rid err =>
      match suspended st !! rid with
      | Some (AwaitMonitor addr amt t) =>
          Some (handler_monitor_rejected rid addr t err st)
      | _ => None
      end
  | InitiatorResolved rid r =>
      match suspended st !! rid with
      | Some (AwaitInitiator amt) =>
          Some (handler_initiator_resolved rid amt r st)
      | _ => None
      end
  | InitiatorThrew rid err =>
      match suspended st !! rid with
      | Some (AwaitInitiator amt) => Some (handler_catch rid err st)
      | _ => None
      end
  | TimerFired t =>
      match timers st !! t with
      | Some addr =>
          Some (onTimeout addr
                  (with_timers (delete t (timers st)) (nextTimer st) st))
      | None => None
      end
  | FeedTx w tx =>
      match watchers st !! w with
      | Some cb => Some (onTransaction cb tx st)
      | None => None
      end
  | WsConnect i =>
      (* [clients.add(ws); ws.send(greeting)] for a socket that is new, open
         and takes this first [send]; a greeting that throws is not among
         the events considered *)
      if has_client i (clients st) then None
      else
        match send connectedMsg (mkClient i OPEN false []) with
        | Some ws => Some (with_clients (clients_add ws (clients st)) st)
        | None => None
        end
  | WsChange i r faulty =>
      Some (with_clients (map (ws_change i r faulty) (clients st)) st)
  | WsClose i => Some (with_clients (clients_delete i (clients st)) st)
  | WsError i => Some (with_clients (clients_delete i (clients st)) st)
  | Advance dt => Some (with_now (now st + dt) st)
  end.

(** A run of the event loop. *)
Fixpoint run (st : State) (evs : list Event) : option State :=
  match evs with
  | [] => Some st
  | ev :: evs' =>
      match step st ev with
      | Some st' => run st' evs'
      | None => None
      end
  end.

End Handler.

(** ** What can be observed of a state *)

(** The messages handed to [broadcast], oldest first. *)
Fixpoint broadcasts_of (tr : list Effect) : list Message :=
  match tr with
  | [] => []
  | EBroadcast m :: tr' => m :: broadcasts_of tr'
  | _ :: tr' => broadcasts_of tr'
  end.

Definition broadcasts (st : State) : list Message := broadcasts_of (trace st).

(** The responses sent, oldest first. *)
Fixpoint responses_of (tr : list Effect) : list (nat * Response) :=
  match tr with
  | [] => []
  | ERespond rid r :: tr' => (rid, r) :: responses_of tr'
  | _ :: tr' => responses_of tr'
  end.

Definition responses (st : State) : list (nat * Response) :=
  responses_of (trace st).

(** The pending timers whose callback is about [addr]. *)
Definition live_timers_for (addr : string) (st : State) : list nat :=
  (map_to_list (filter (λ kv, kv.2 = addr) (timers st))).*1.

(** ** [PriceCacheService] *)

Module PriceCacheService.

(** [private static readonly REFRESH_INTERVAL_MS = 60000] *)
Definition REFRESH_INTERVAL_MS : Z := 60000.

(** A value of [cachedPrices]. *)
Record Entry : Type := mkEntry {
  price : jsnum;
  timestamp : Z
}.

(** How one [fetch] of the loop ends: it throws (the network, or the JSON
    parser), or it yields [data], of which only [data[coinId]?.usd] is
    read ([None] when it is undefined). *)
Inductive FetchOutcome : Type :=
  | Threw
  | Data (usd : option jsnum).

(** One iteration of the loop of [fetchAndCacheAllPrices] that has run to
    its end: the coin, how its fetch ended, and the value of [Date.now()]
    at that moment. *)
Record Landing : Type := mkLanding {
  l_coin : string;
  l_outcome : FetchOutcome;
  l_time : Z
}.

(** The state of the class: its two static fields, and the interval timers
    of the runtime that are still scheduled (oldest first, each with its
    period), the number of [initialize] calls waiting for their first
    refresh. *)
Record Service : Type := mkService {
  cachedPrices : gmap string Entry;
  refreshInterval : option nat;
  intervals : list (nat * Z);
  nextInterval : nat;
  initializing : nat
}.

Definition initial : Service := mkService ∅ None [] 0%nat 0%nat.

(** The body of the loop, from the answer of [fetch] on:
    [if (data[coinId]?.usd) cachedPrices.set(coinId, {price, timestamp})]. *)
Definition cache_price (l : Landing) (m : gmap string Entry)
  : gmap string Entry :=
  match l_outcome l with
  | Data (Some p) =>
      if num_truthy p then <[l_coin l := mkEntry p (l_time l)]> m else m
  | Data None => m
  | Threw => m
  end.

(** The cache after the iterations [h], oldest first. *)
Definition replay (h : list Landing) (m : gmap string Entry)
  : gmap string Entry :=
  foldl (λ m l, cache_price l m) m h.

(** [[...new Set(ids)]]: every identifier once, in the order of the first
    occurrences. *)
Fixpoint uniqueCoingeckoIds (ids : list string) : list string :=
  match ids with
  | [] => []
  | c :: ids' => c :: filter (λ d, d ≠ c) (uniqueCoingeckoIds ids')
  end.

(** The iterations of one refresh over [ids]; [net k] is the network at the
    [k]-th request of the refresh: how that fetch ends, and the value of
    [Date.now()] when it does. *)
Definition refresh_landings (ids : list string) (net : nat → FetchOutcome * Z)
  : list Landing :=
  imap (λ k c, mkLanding c (net k).1 (net k).2) ids.

(** [fetchAndCacheAllPrices] run without interruption over the configured
    coins. *)
Definition fetchAndCacheAllPrices (coins : list string)
    (net : nat → FetchOutcome * Z) (m : gmap string Entry)
  : gmap string Entry :=
  replay (refresh_landings (uniqueCoingeckoIds coins) net) m.

(** [getCachedPrice(symbol)] when [Date.now()] is [now]. *)
Definition getCachedPrice (m : gmap string Entry) (now : Z) (symbol : string)
  : jsnum :=
  match m !! symbol with
  | Some cached =>
      let ageMs := now - timestamp cached in
      if ageMs <? REFRESH_INTERVAL_MS then price cached else num_zero
  | None => num_zero
  end.

(** [clearInterval(i)] *)
Definition clearInterval (i : nat) (l : list (nat * Z)) : list (nat * Z) :=
  filter (λ j, j.1 ≠ i) l.

(** [startPeriodicRefresh()] *)
Definition startPeriodicRefresh (s : Service) : Service :=
  let live :=
    match refreshInterval s with
    | Some i => clearInterval i (intervals s)
    | None => intervals s
    end in
  let i := nextInterval s in
  mkService (cachedPrices s) (Some i) (live ++ [(i, REFRESH_INTERVAL_MS)]) (S i)
            (initializing s).

(** [stop()] *)
Definition stop (s : Service) : Service :=
  match refreshInterval s with
  | Some i =>
      mkService (cachedPrices s) None (clearInterval i (intervals s))
                (nextInterval s) (initializing s)
  | None => s
  end.

(** What the event loop can run for the service. *)
Inductive Event : Type :=
  | Initialize               (* initialize() is called, and awaits *)
  | InitializeResumed        (* its first refresh is over *)
  | Landed (l : Landing)     (* an iteration of some refresh ends *)
  | Tick (i : nat)           (* the callback of setInterval; it awaits *)
  | Stop.

Definition step (s : Service) (ev : Event) : option Service :=
  match ev with
  | Initialize =>
      Some (mkService (cachedPrices s) (refreshInterval s) (intervals s)
                      (nextInterval s) (S (initializing s)))
  | InitializeResumed =>
      match initializing s with
      | S n =>
          Some (startPeriodicRefresh
                  (mkService (cachedPrices s) (refreshInterval s)
                             (intervals s) (nextInterval s) n))
      | O => None
      end
  | Landed l =>
      Some (mkService (cache_price l (cachedPrices s)) (refreshInterval s)
                      (intervals s) (nextInterval s) (initializing s))
  | Tick i => if bool_decide (i ∈ (intervals s).*1) then Some s else None
  | Stop => Some (stop s)
  end.

Fixpoint run (s : Service) (evs : list Event) : option Service :=
  match evs with
  | [] => Some s
  | ev :: evs' =>
      match step s ev with
      | Some s' => run s' evs'
      | None => None
      end
  end.

(** The iterations that ended during the events [evs], oldest first. *)
Fixpoint landings (evs : list Event) : list Landing :=
  match evs with
  | [] => []
  | Landed l :: evs' => l :: landings evs'
  | _ :: evs' => landings evs'
  end.

(** The most recent iteration of [h] that stored a price for [asset], as
    the specification speaks of it: the last successful fetch. *)
Definition stores (asset : string) (l : Landing) : option Entry :=
  if bool_decide (l_coin l = asset) then
    match l_outcome l with
    | Data (Some p) => if num_truthy p then Some (mkEntry p (l_time l)) else None
    | _ => None
    end
  else None.

Fixpoint last_success_rev (asset : string) (h : list Landing) : option Entry :=
  match h with
  | [] => None
  | l :: h' =>
      match stores asset l with
      | Some e => Some e
      | None => last_success_rev asset h'
      end
  end.

Definition last_success (asset : string) (h : list Landing) : option Entry :=
  last_success_rev asset (rev h).

(** The price the specification promises at [now] after the fetches [h]:
    that of the last successful fetch if it landed less than the period
    ago, the zero sentinel otherwise. *)
Definition getPrice_spec (h : list Landing) (now : Z) (asset : string) : jsnum :=
  match last_success asset h with
  | Some e => if now - timestamp e <? 60000 then price e else num_zero
  | None => num_zero
  end.

(** The age of the entry of [asset], as [getCachedPrice] computes it. *)
Definition age (m : gmap string Entry) (now : Z) (asset : string) : option Z :=
  (λ e, now - timestamp e) <$> m !! asset.

(** A third [initialize] is called while the second still waits. *)
Definition thrice : list Event :=
  [Initialize; InitializeResumed; Initialize; Initialize; InitializeResumed;
   InitializeResumed].

Definition after_thrice : Service :=
  mkService ∅ (Some 2%nat) [(2%nat, 60000)] 3%nat 0%nat.

(** One [initialize] and one tick later: the first fetch of the coin gave
    7.5 at time 1000, the second threw at time 61000. *)
Definition sample_events : list Event :=
  [Initialize; Landed (mkLanding "polkadot" (Data (Some (Fin 7.5%Q))) 1000);
   InitializeResumed; Tick 0;
   Landed (mkLanding "polkadot" Threw 61000)].

Definition after_sample_events : Service :=
  mkService {["polkadot" := mkEntry (Fin 7.5%Q) 1000]} (Some 0%nat)
            [(0%nat, 60000)] 1%nat 0%nat.

(** The class keeps the handle of every interval that is scheduled. *)
Definition tracked (s : Service) : Prop :=
  intervals s =
  match refreshInterval s with
  | Some i => [(i, REFRESH_INTERVAL_MS)]
  | None => []
  end.

(** An [initialize] that still awaits its first refresh. *)
Definition initializing_once : Service := mkService ∅ None [] 0%nat 1%nat.

End PriceCacheService.

(** ** Notions used in the statements *)

(** [has_client], read on the sockets that are registered. *)
Definition registered (i : nat) (st : State) : bool := has_client i (clients st).

(** The effects a transition from [st] to [st'] added. *)
Definition effects (st st' : State) : list Effect :=
  drop (length (trace st)) (trace st').





(** The state in which an accepted request leaves the handler at its first
    [await]. *)
Definition accepted (addr : string) (amt : jsnum) (st : State) : State :=
  let rid := nextReq st in
  let t := nextTimer st in
  mkState (broadcast_clients (preparingMsg amt) (clients st))
          (<[addr := mkSession amt addr (now st) t]> (activePayments st))
          (<[t := addr]> (timers st)) (S t)
          (watchers st)
          (<[rid := AwaitMonitor addr amt t]> (suspended st)) (S rid)
          (trace st ++ [EBroadcast (preparingMsg amt); ESetTimeout t addr;
                        ESet addr; ESubscribe addr])
          (now st).

(** [settles rid ev]: the event is the settlement of a promise awaited by
    the invocation [rid] of the handler. *)
Definition settles (rid : nat) (ev : Event) : bool :=
  match ev with
  | MonitorResolved r | MonitorRejected r _
  | InitiatorResolved r _ | InitiatorThrew r _ => Nat.eqb r rid
  | _ => false
  end.

(** The timers that sessions, parked invocations and subscribed callbacks
    hold were handed out by [setTimeout], and two of them that hold the same
    timer come from the same call of [monitorTransaction]: they agree on the
    address and on the amount. *)
Definition coherent (st : State) : Prop :=
  (∀ a s, activePayments st !! a = Some s →
     (timeout s < nextTimer st)%nat ∧ merchantAddress s = a)
  ∧ (∀ rid addr amt t,
       suspended st !! rid = Some (AwaitMonitor addr amt t) →
       (t < nextTimer st)%nat
       ∧ ∀ a s, activePayments st !! a = Some s → timeout s = t →
                a = addr ∧ amount s = amt)
  ∧ (∀ w cb,
       watchers st !! w = Some cb →
       (w_timeout cb < nextTimer st)%nat
       ∧ ∀ a s, activePayments st !! a = Some s → timeout s = w_timeout cb →
                a = w_address cb ∧ amount s = w_amount cb).

(** ** Further notions: requests, sockets and timers over a run *)

(** The requests that were answered, oldest first. *)
Definition answered (st : State) : list nat := (responses st).*1.

(** No request was answered twice; the requests that were answered or are
    parked at an [await] are requests that entered the handler, and none is
    both answered and parked. *)
Definition requests_accounted (st : State) : Prop :=
  NoDup (answered st)
  ∧ ∀ rid, (rid ∈ answered st ∨ is_Some (suspended st !! rid) →
            (rid < nextReq st)%nat)
           ∧ ¬ (rid ∈ answered st ∧ is_Some (suspended st !! rid)).

(** Every session of the registry is stored under the address its own timer
    was armed for, and that timer is still pending. *)
Definition sessions_have_timers (st : State) : Prop :=
  ∀ a s, activePayments st !! a = Some s → timers st !! timeout s = Some a.

(** The socket [i] of the registered set, if it is there. *)
Definition find_client (i : nat) (cs : list Client) : option Client :=
  find (λ c, Nat.eqb (ws_id c) i) cs.

(** [socket_event i ev]: the event is an event of the socket [i]. *)
Definition socket_event (i : nat) (ev : Event) : bool :=
  match ev with
  | WsConnect j | WsChange j _ _ | WsClose j | WsError j => Nat.eqb j i
  | _ => false
  end.

(** What an event of a socket does to the registered set. *)
Definition clients_after (ev : Event) (cs : list Client) : list Client :=
  match ev with
  | WsConnect i => clients_add (mkClient i OPEN false [connectedMsg]) cs
  | WsChange i r f => map (ws_change i r f) cs
  | WsClose i | WsError i => clients_delete i cs
  | _ => cs
  end.

(** The registered set after the broadcasts [ms], oldest first. *)
Definition broadcast_all (ms : list Message) (cs : list Client) : list Client :=
  foldl (λ cs m, broadcast_clients m cs) cs ms.

(** The state after an accepted request whose subscription to the feed has
    been set up. *)
Definition monitoring (addr : string) (amt : jsnum) (st : State) : State :=
  handler_monitor_resolved (nextReq st) addr amt (nextTimer st)
                           (accepted addr amt st).

(** ** Sample data for the closed statements *)

(** A stand-in for the address check in the closed examples: any string
    that starts with [0x]. *)
Definition sample_isEthereumAddress (s : string) : bool := String.prefix "0x" s.

Definition sample_address : string := "0x52908400098527886E0F7030069857D2E4169EE7".

(** A registry of three sockets: the first is closing and its [close] event
    has not been delivered yet, the second is open, the third is open and
    its [send] throws. *)
Definition three_sinks : State :=
  with_clients [mkClient 1 CLOSING false []; mkClient 2 OPEN false [];
                mkClient 3 OPEN true []] initial.

Definition sample_body : Body :=
  mkBody (JNum (Fin 10%Q)) (Some sample_address).

(** One observer is connected, a payment of 10 was requested and its
    subscription to the feed is set up. *)
Definition pending_payment : State :=
  default initial
    (run sample_isEthereumAddress initial
         [WsConnect 7; Request sample_body; MonitorResolved 0]).


(** The feed has reported a transaction of 10 for that payment. *)
Definition confirmed_once : State :=
  default pending_payment
    (step sample_isEthereumAddress pending_payment (FeedTx 0 (mkTx (Fin 10%Q)))).

(** A payment was requested and its subscription has not been answered. *)
Definition requested : State :=
  default initial
    (run sample_isEthereumAddress initial [WsConnect 7; Request sample_body]).

(** A payment whose initiator is awaited, after an observer has connected
    and the feed has reported a transaction that is too small. *)
Definition armed : State :=
  default initial
    (run sample_isEthereumAddress initial
         [Request sample_body; WsConnect 7; MonitorResolved 0;
          FeedTx 0 (mkTx (Fin 3%Q))]).

(** The initiator reports success. *)
Definition sample_success : PaymentResult :=
  mkResult true "Payment received" None.

(** The pending payment of above, confirmed by the feed and then reported
    successful by the initiator. *)
Definition settled : State :=
  default pending_payment
    (run sample_isEthereumAddress pending_payment
         [FeedTx 0 (mkTx (Fin 10%Q)); InitiatorResolved 0 sample_success]).

(** Two requests: the first is parked at the initiator, the second was
    refused for its amount. *)
Definition two_requests : State :=
  default initial
    (run sample_isEthereumAddress initial
         [Request sample_body; Request (mkBody (JNum NaN) None);
          MonitorResolved 0]).

(* ===================================================================== *)
(** * Part II: properties                                                *)
(* ===================================================================== *)

(** ** Numbers *)

Lemma num_ge_Fin (x y : Q) : num_ge (Fin x) (Fin y) = true ↔ (y <= x)%Q.
Proof. unfold num_ge; simpl. apply Qle_bool_iff. Qed.

Lemma num_lt_not_ge (a b : jsnum) : num_lt a b = true → num_ge a b = false.
Proof.
  destruct a as [| | |x], b as [| | |y]; simpl; try done.
  unfold num_ge; simpl. intros H. by apply negb_true_iff in H.
Qed.

Lemma num_ge_NaN_l (b : jsnum) : num_ge NaN b = false.
Proof. by destruct b. Qed.

(** ** The trace and the state under the primitives *)

Lemma effects_app st st' l : trace st' = trace st ++ l → effects st st' = l.
Proof. unfold effects. intros ->. by rewrite drop_app_length. Qed.

Lemma broadcasts_of_app tr1 tr2 :
  broadcasts_of (tr1 ++ tr2) = broadcasts_of tr1 ++ broadcasts_of tr2.
Proof.
  induction tr1 as [|e tr1 IH]; [done|].
  destruct e; simpl; by rewrite ?IH.
Qed.

Lemma responses_of_app tr1 tr2 :
  responses_of (tr1 ++ tr2) = responses_of tr1 ++ responses_of tr2.
Proof.
  induction tr1 as [|e tr1 IH]; [done|].
  destruct e; simpl; by rewrite ?IH.
Qed.

Lemma broadcasts_grow_ne (st : State) (m : Message) :
  broadcasts st ≠ broadcasts st ++ [m].
Proof.
  intros H. apply (f_equal length) in H. rewrite length_app in H.
  simpl in H. lia.
Qed.

(** ** The broadcast hub *)

Lemma deliver_id m c : ws_id (deliver m c) = ws_id c.
Proof. destruct c as [i r f l]. by destruct r, f. Qed.

Lemma deliver_readyState m c : ws_readyState (deliver m c) = ws_readyState c.
Proof. destruct c as [i r f l]. by destruct r, f. Qed.

Lemma deliver_faulty m c : ws_faulty (deliver m c) = ws_faulty c.
Proof. destruct c as [i r f l]. by destruct r, f. Qed.

Lemma deliver_inbox m c :
  ws_inbox (deliver m c) =
  if is_open (ws_readyState c) && negb (ws_faulty c)
  then ws_inbox c ++ [m] else ws_inbox c.
Proof. destruct c as [i r f l]. by destruct r, f. Qed.

Lemma has_client_broadcast m i cs :
  has_client i (broadcast_clients m cs) = has_client i cs.
Proof.
  unfold has_client, broadcast_clients.
  induction cs as [|c cs IH]; [done|]. simpl. by rewrite deliver_id, IH.
Qed.

(** C8, as the specification has it, fails: [broadcast] removes nothing.  A
    socket that is not open and a socket whose [send] throws both stay
    registered after a broadcast. *)
Lemma broadcast_keeps_closed_sink :
  clients three_sinks !! 0%nat = Some (mkClient 1 CLOSING false [])
  ∧ clients three_sinks !! 2%nat = Some (mkClient 3 OPEN true [])
  ∧ send confirmedMsg (mkClient 3 OPEN true []) = None
  ∧ registered 1 (broadcast confirmedMsg three_sinks) = true
  ∧ registered 3 (broadcast confirmedMsg three_sinks) = true.
Proof. by vm_compute. Qed.

(** C8 (amended): a broadcast delivers the message once to every registered
    socket that is open and whose [send] does not throw, delivers nothing to
    the others, always returns, and leaves the registered set as it was: the
    same sockets at the same places, closed and failing ones included (they
    leave the set through their own [close] and [error] events). *)
Theorem broadcast_isolates_failures (m : Message) (st : State) (i : nat)
    (c : Client) :
  clients st !! i = Some c →
  ∃ c', clients (broadcast m st) !! i = Some c'
    ∧ ws_id c' = ws_id c
    ∧ ws_readyState c' = ws_readyState c
    ∧ ws_faulty c' = ws_faulty c
    ∧ ws_inbox c' = (if is_open (ws_readyState c) && negb (ws_faulty c)
                     then ws_inbox c ++ [m] else ws_inbox c)
    ∧ length (clients (broadcast m st)) = length (clients st)
    ∧ (∀ j, registered j (broadcast m st) = registered j st).
Proof.
  intros Hc. exists (deliver m c). simpl. unfold broadcast_clients.
  rewrite list_lookup_fmap, Hc. simpl.
  rewrite deliver_id, deliver_readyState, deliver_faulty, deliver_inbox.
  rewrite length_map. repeat split.
  intros j. unfold registered. simpl. apply has_client_broadcast.
Qed.

Lemma broadcast_isolates_failures_witness :
  ∃ c', clients (broadcast confirmedMsg three_sinks) !! 1%nat = Some c'
    ∧ ws_id c' = 2%nat
    ∧ ws_readyState c' = OPEN
    ∧ ws_faulty c' = false
    ∧ ws_inbox c' = [confirmedMsg]
    ∧ length (clients (broadcast confirmedMsg three_sinks)) = 3%nat
    ∧ (∀ j, registered j (broadcast confirmedMsg three_sinks)
            = registered j three_sinks).
Proof.
  apply (broadcast_isolates_failures confirmedMsg three_sinks 1
           (mkClient 2 OPEN false [])).
  reflexivity.
Defined.

(** ** Terminal transitions of a session *)

Section Sessions.

Variable isEthereumAddress : string → bool.

Local Abbreviation step := (step isEthereumAddress).
Local Abbreviation run := (run isEthereumAddress).
Local Abbreviation invalid_address := (invalid_address isEthereumAddress).



(** C7: when the subscription to the feed cannot be set up, the timer of the
    session is cancelled, the entry of its address is removed from the
    registry, a [payment_failure] with MONITORING_ERROR is broadcast and
    reaches every open observer, and no callback is left subscribed: the
    session is over and the observers know it before the error travels
    on.  The error then reaches the [catch] of the handler: thrown as a
    value other than [null] and [undefined] it is answered with a second
    [payment_failure] (SERVER_ERROR) and 500; thrown as [null] or
    [undefined] it makes the [catch] itself throw, and the invocation ends
    there. *)
Theorem monitoring_failure_cleans_up (st : State) (rid : nat) (addr : string)
    (amt : jsnum) (t : nat) (err : Thrown) :
  suspended st !! rid = Some (AwaitMonitor addr amt t) →
  ∃ st', step st (MonitorRejected rid err) = Some st'
    ∧ timers st' !! t = None
    ∧ activePayments st' !! addr = None
    ∧ suspended st' !! rid = None
    ∧ watchers st' = watchers st
    ∧ effects st st' =
        [EClearTimeout t; EDelete addr;
         EBroadcast (mkMessage payment_failure
                       (TLit "Failed to monitor transaction") None
                       (Some "MONITORING_ERROR") false)]
        ++ match err with
           | ThrownValue m =>
               [EBroadcast (mkMessage payment_failure
                              (TServerError (errorMessage m)) None
                              (Some "SERVER_ERROR") false);
                ERespond rid (mkResponse 500 (BError "Internal server error"))]
           | ThrownNullish => []
           end
    ∧ (∀ i c, clients st !! i = Some c →
         is_open (ws_readyState c) && negb (ws_faulty c) = true →
         ∃ c' more, clients st' !! i = Some c'
           ∧ ws_inbox c' =
             ws_inbox c
             ++ mkMessage payment_failure
                  (TLit "Failed to monitor transaction") None
                  (Some "MONITORING_ERROR") false :: more).
Proof.
  intros Hs. unfold step. rewrite Hs. eexists. split; [reflexivity|].
  unfold handler_monitor_rejected. destruct err as [|m].
  - repeat split; try (simpl; apply lookup_delete_eq).
    + apply effects_app. simpl. by rewrite <- !app_assoc.
    + intros i c Hc Hok. simpl. unfold broadcast_clients.
      rewrite !list_lookup_fmap, Hc. simpl. exists (deliver monitoringErrorMsg c), [].
      split; [reflexivity|]. by rewrite deliver_inbox, Hok.
  - repeat split; try (simpl; apply lookup_delete_eq).
    + apply effects_app. simpl. by rewrite <- !app_assoc.
    + intros i c Hc Hok. simpl. unfold broadcast_clients.
      rewrite !list_lookup_fmap, Hc. simpl.
      eexists. exists [serverErrorMsg (errorMessage m)].
      split; [reflexivity|].
      rewrite !deliver_inbox, !deliver_readyState, !deliver_faulty, Hok.
      by rewrite <- app_assoc.
Qed.

(** C3 fails on the code: the callback given to the feed stays subscribed
    after its session is over and does not look at the registry.  After a
    first matching event has confirmed and removed the session, a second
    matching event runs the confirmation path again and broadcasts
    [transaction_confirmed] a second time. *)
Theorem late_feed_event_broadcasts_again (st : State) (w : nat) (cb : Watcher)
    (tx : Tx) :
  watchers st !! w = Some cb →
  num_ge (tx_value tx) (w_amount cb) = true →
  ∃ st1 st2,
    step st (FeedTx w tx) = Some st1
    ∧ activePayments st1 !! w_address cb = None
    ∧ timers st1 !! w_timeout cb = None
    ∧ watchers st1 !! w = Some cb
    ∧ step st1 (FeedTx w tx) = Some st2
    ∧ broadcasts st2 = broadcasts st1 ++ [confirmedMsg]
    ∧ st2 ≠ st1.
Proof.
  intros Hw Hge.
  assert (Hb : ∀ s, broadcasts (onTransaction cb tx s)
                    = broadcasts s ++ [confirmedMsg]).
  { intros s. unfold onTransaction, broadcasts. rewrite Hge. simpl.
    by rewrite !broadcasts_of_app, !app_nil_r. }
  assert (Hk : watchers (onTransaction cb tx st) = watchers st).
  { unfold onTransaction. by rewrite Hge. }
  exists (onTransaction cb tx st), (onTransaction cb tx (onTransaction cb tx st)).
  split; [unfold step; by rewrite Hw|].
  split; [unfold onTransaction; rewrite Hge; simpl; apply lookup_delete_eq|].
  split; [unfold onTransaction; rewrite Hge; simpl; apply lookup_delete_eq|].
  split; [by rewrite Hk|].
  split; [unfold step; by rewrite Hk, Hw|].
  split; [apply Hb|].
  intros Heq. apply (f_equal broadcasts) in Heq. rewrite Hb in Heq.
  symmetry in Heq. by apply broadcasts_grow_ne in Heq.
Qed.

End Sessions.

(** ** The handler of [/initiate-payment] *)

Section Requests.

Variable isEthereumAddress : string → bool.

Local Abbreviation step := (step isEthereumAddress).
Local Abbreviation run := (run isEthereumAddress).
Local Abbreviation invalid_address := (invalid_address isEthereumAddress).

Lemma accepted_unfold (addr : string) (amt : jsnum) (st : State) :
  (let st0 := with_suspended (suspended st) (S (nextReq st)) st in
   let st1 := broadcast (preparingMsg amt) st0 in
   let '(t, st2) := monitorTransaction_begin addr amt st1 in
   suspend (nextReq st) (AwaitMonitor addr amt t) st2)
  = accepted addr amt st.
Proof.
  unfold accepted, suspend, monitorTransaction_begin, payments_set, broadcast,
    log, with_suspended, with_payments, with_timers, with_clients. simpl.
  by rewrite <- !app_assoc.
Qed.

Lemma initiatePaymentHandler_accepted (body : Body) (st : State) (amt : jsnum)
    (addr : string) :
  b_amount body = JNum amt →
  b_merchantAddress body = Some addr →
  invalid_amount (JNum amt) = false →
  invalid_address (Some addr) = false →
  initiatePaymentHandler isEthereumAddress body st = accepted addr amt st.
Proof.
  intros Ha Hm Hva Hvm. unfold initiatePaymentHandler.
  rewrite Ha, Hm. simpl in Hva, Hvm. rewrite Hva, Hvm.
  apply accepted_unfold.
Qed.

(** A request leaves the handler answered with 400, or parked at its first
    [await]. *)
Lemma initiatePaymentHandler_cases (body : Body) (st : State) :
  (∃ b m, initiatePaymentHandler isEthereumAddress body st
          = respond (nextReq st) 400 b
              (broadcast m (with_suspended (suspended st) (S (nextReq st)) st)))
  ∨ (∃ addr amt, initiatePaymentHandler isEthereumAddress body st
                 = accepted addr amt st).
Proof.
  unfold initiatePaymentHandler.
  destruct (b_amount body) as [| |b|a|s|]; try (left; by do 2 eexists).
  destruct (num_le a num_zero || isNaN a); [left; by do 2 eexists|].
  destruct (b_merchantAddress body) as [addr|]; [|left; by do 2 eexists].
  destruct (bool_decide (addr = "") || negb (isEthereumAddress addr));
    [left; by do 2 eexists|].
  right. exists addr, a. apply accepted_unfold.
Qed.

(** X2: an amount that is not a number, is NaN, or is at most zero is
    answered with 400 "Invalid amount" after one advisory broadcast,
    whatever the address; no session, timer or subscription is created. *)
Lemma invalid_amount_rejected (body : Body) (st : State) :
  invalid_amount (b_amount body) = true →
  let st' := initiatePaymentHandler isEthereumAddress body st in
  effects st st' = [EBroadcast invalidAmountMsg;
                    ERespond (nextReq st)
                             (mkResponse 400 (BError "Invalid amount"))]
  ∧ activePayments st' = activePayments st
  ∧ timers st' = timers st
  ∧ watchers st' = watchers st
  ∧ suspended st' !! nextReq st = None.
Proof.
  intros Hv. unfold initiatePaymentHandler.
  assert (H : ∀ s, effects s (reject_amount (nextReq s)
                      (with_suspended (suspended s) (S (nextReq s)) s))
              = [EBroadcast invalidAmountMsg;
                 ERespond (nextReq s) (mkResponse 400 (BError "Invalid amount"))]).
  { intros s. apply effects_app. simpl. by rewrite <- app_assoc. }
  destruct (b_amount body) as [| |b|a|s|]; simpl in Hv; try discriminate;
    rewrite ?Hv; (split; [apply H|]); simpl;
    repeat split; apply lookup_delete_eq.
Qed.

(** What [invalid_amount] rejects, and the value it lets through. *)
Lemma invalid_amount_iff (v : jsval) :
  invalid_amount v = true ↔
  typeof_number v = false
  ∨ ∃ a, v = JNum a ∧ (a = NaN ∨ a = NegInf ∨ ∃ q, a = Fin q ∧ (q <= 0)%Q).
Proof.
  destruct v as [| |b|a|s|]; simpl; try (split; [by left|done]).
  split.
  - intros H. right. exists a. split; [done|].
    destruct a as [| | |q]; simpl in H; try discriminate; auto.
    right. right. exists q. split; [done|].
    apply orb_true_iff in H as [H|H]; [|done]. by apply Qle_bool_iff.
  - intros [H|(a' & [= <-] & H)]; [done|].
    destruct H as [->|[->|(q & -> & Hq)]]; try done.
    simpl. apply orb_true_iff. left. by apply Qle_bool_iff.
Qed.

(** C1 fails on the code for an amount of plus infinity, which is a number,
    is not NaN and is above zero: with a well-formed address the request is
    not answered with 400; a session with an infinite amount is stored, its
    timer is armed and the subscription is requested. *)
Theorem infinite_amount_accepted (st : State) (addr : string) :
  invalid_address (Some addr) = false →
  let st' := initiatePaymentHandler isEthereumAddress
               (mkBody (JNum PosInf) (Some addr)) st in
  isFinite PosInf = false
  ∧ responses st' = responses st
  ∧ activePayments st' !! addr
    = Some (mkSession PosInf addr (now st) (nextTimer st))
  ∧ timers st' !! nextTimer st = Some addr
  ∧ suspended st' !! nextReq st = Some (AwaitMonitor addr PosInf (nextTimer st))
  ∧ effects st st' = [EBroadcast (preparingMsg PosInf);
                      ESetTimeout (nextTimer st) addr; ESet addr;
                      ESubscribe addr].
Proof.
  intros Hv st'. subst st'.
  rewrite (initiatePaymentHandler_accepted _ st PosInf addr) by done.
  unfold accepted. simpl. repeat split.
  - unfold responses. simpl. rewrite responses_of_app. simpl.
    by rewrite app_nil_r.
  - apply lookup_insert_eq.
  - apply lookup_insert_eq.
  - apply lookup_insert_eq.
  - by apply effects_app.
Qed.

End Requests.

Section Outcomes.

Variable isEthereumAddress : string → bool.

Local Abbreviation step := (step isEthereumAddress).
Local Abbreviation run := (run isEthereumAddress).
Local Abbreviation invalid_address := (invalid_address isEthereumAddress).

Lemma run_app (st : State) (l1 l2 : list Event) :
  run st (l1 ++ l2) = run st l1 ≫= λ s, run s l2.
Proof.
  revert st. induction l1 as [|ev l1 IH]; intros st; [done|].
  simpl. destruct (step st ev); [apply IH|done].
Qed.

(** A callback that does not settle a promise of the invocation [rid]
    leaves that invocation where it is parked. *)
Lemma step_frame (st st' : State) (ev : Event) (rid : nat) :
  (rid < nextReq st)%nat →
  settles rid ev = false →
  step st ev = Some st' →
  suspended st' !! rid = suspended st !! rid ∧ (rid < nextReq st')%nat.
Proof.
  intros Hlt Hs Hstep.
  assert (Hne : nextReq st ≠ rid) by lia.
  destruct ev as [body|r|r err|r res|r err|t|w tx|i|i rs f|i|i|dt];
    simpl in Hs, Hstep; try apply Nat.eqb_neq in Hs.
  - injection Hstep as <-. unfold initiatePaymentHandler.
    destruct (b_amount body) as [| |b|a|s|]; simpl;
      rewrite ?lookup_delete_ne by done; try (split; [done|lia]).
    destruct (num_le a num_zero || isNaN a); simpl;
      rewrite ?lookup_delete_ne by done; try (split; [done|lia]).
    destruct (b_merchantAddress body) as [addr|]; simpl;
      rewrite ?lookup_delete_ne by done; try (split; [done|lia]).
    destruct (bool_decide (addr = "") || negb (isEthereumAddress addr)); simpl;
      rewrite ?lookup_delete_ne by done; rewrite ?lookup_insert_ne by done;
      (split; [done|lia]).
  - destruct (suspended st !! r) as [[addr amt t|amt]|]; try discriminate.
    injection Hstep as <-. simpl. by rewrite lookup_insert_ne.
  - destruct (suspended st !! r) as [[addr amt t|amt]|]; try discriminate.
    injection Hstep as <-. destruct err; simpl; by rewrite lookup_delete_ne.
  - destruct (suspended st !! r) as [[addr amt t|amt]|]; try discriminate.
    injection Hstep as <-. unfold handler_initiator_resolved.
    destruct (pr_success res); simpl; by rewrite lookup_delete_ne.
  - destruct (suspended st !! r) as [[addr amt t|amt]|]; try discriminate.
    injection Hstep as <-. destruct err; simpl; by rewrite lookup_delete_ne.
  - destruct (timers st !! t); try discriminate. by injection Hstep as <-.
  - destruct (watchers st !! w) as [cb|]; try discriminate.
    injection Hstep as <-. unfold onTransaction.
    by destruct (num_ge (tx_value tx) (w_amount cb)).
  - destruct (has_client i (clients st)); try discriminate.
    by injection Hstep as <-.
  - by injection Hstep as <-.
  - by injection Hstep as <-.
  - by injection Hstep as <-.
  - by injection Hstep as <-.
Qed.

Lemma run_frame (evs : list Event) (st st' : State) (rid : nat) :
  (rid < nextReq st)%nat →
  forallb (λ ev, negb (settles rid ev)) evs = true →
  run st evs = Some st' →
  suspended st' !! rid = suspended st !! rid ∧ (rid < nextReq st')%nat.
Proof.
  revert st. induction evs as [|ev evs IH]; intros st Hlt Hall Hrun.
  - simpl in Hrun. by injection Hrun as <-.
  - simpl in Hall, Hrun. apply andb_true_iff in Hall as [Hev Hall].
    apply negb_true_iff in Hev.
    destruct (step st ev) as [s|] eqn:Hstep; [|discriminate].
    destruct (step_frame st s ev rid Hlt Hev Hstep) as [Heq Hlt'].
    destruct (IH s Hlt' Hall Hrun) as [Heq' Hlt'']. split; [congruence|done].
Qed.

(** A call whose amount and address pass validation and whose subscription
    to the feed is set up awaits the initiator, whatever callbacks run in
    between that do not settle its own promises. *)
Lemma parked_at_initiator (st st2 : State) (body : Body) (amt : jsnum)
    (addr : string) (evs1 evs2 : list Event) :
  b_amount body = JNum amt →
  b_merchantAddress body = Some addr →
  invalid_amount (JNum amt) = false →
  invalid_address (Some addr) = false →
  forallb (λ ev, negb (settles (nextReq st) ev)) (evs1 ++ evs2) = true →
  run st (Request body :: evs1 ++ MonitorResolved (nextReq st) :: evs2)
  = Some st2 →
  suspended st2 !! nextReq st = Some (AwaitInitiator amt).
Proof.
  intros Ha Hm Hva Hvm Hall Hrun.
  rewrite forallb_app in Hall. apply andb_true_iff in Hall as [Hall1 Hall2].
  change (run (initiatePaymentHandler isEthereumAddress body st)
              (evs1 ++ MonitorResolved (nextReq st) :: evs2) = Some st2) in Hrun.
  rewrite (initiatePaymentHandler_accepted _ body st amt addr) in Hrun by done.
  rewrite run_app in Hrun.
  destruct (run (accepted addr amt st) evs1) as [s1|] eqn:Hrun1;
    [|discriminate].
  simpl in Hrun.
  destruct (run_frame evs1 (accepted addr amt st) s1 (nextReq st))
    as [Hs1 Hlt1]; [simpl; lia|done|done|].
  simpl in Hs1. rewrite lookup_insert_eq in Hs1. rewrite Hs1 in Hrun.
  destruct (run_frame evs2
              (handler_monitor_resolved (nextReq st) addr amt (nextTimer st) s1)
              st2 (nextReq st) Hlt1 Hall2 Hrun) as [Hs2 _].
  rewrite Hs2. simpl. apply lookup_insert_eq.
Qed.

(** C9 fails on the code when the initiator throws [null] or [undefined]
    (a promise rejected without a reason): the [catch] of the handler reads
    [error.message], which throws in its turn, so that no [payment_failure]
    is broadcast and the request gets no answer, neither 500 nor any other,
    then or later.  The call is one that passed validation and whose
    subscription was set up. *)
Theorem nullish_throw_is_not_answered (st st2 : State) (body : Body)
    (amt : jsnum) (addr : string) (evs1 evs2 : list Event) :
  b_amount body = JNum amt →
  b_merchantAddress body = Some addr →
  invalid_amount (JNum amt) = false →
  invalid_address (Some addr) = false →
  forallb (λ ev, negb (settles (nextReq st) ev)) (evs1 ++ evs2) = true →
  run st (Request body :: evs1 ++ MonitorResolved (nextReq st) :: evs2)
  = Some st2 →
  ∃ st3, step st2 (InitiatorThrew (nextReq st) ThrownNullish) = Some st3
    ∧ effects st2 st3 = []
    ∧ broadcasts st3 = broadcasts st2
    ∧ responses st3 = responses st2
    ∧ suspended st3 !! nextReq st = None
    ∧ ∀ ev, settles (nextReq st) ev = true → step st3 ev = None.
Proof.
  intros Ha Hm Hva Hvm Hall Hrun.
  pose proof (parked_at_initiator st st2 body amt addr evs1 evs2
                Ha Hm Hva Hvm Hall Hrun) as Hs.
  exists (abandon (nextReq st) st2).
  split; [unfold step; by rewrite Hs|].
  split; [apply effects_app; simpl; by rewrite app_nil_r|].
  split; [done|]. split; [done|].
  assert (Hgone : suspended (abandon (nextReq st) st2) !! nextReq st = None)
    by (simpl; apply lookup_delete_eq).
  split; [done|].
  intros ev Hev.
  destruct ev as [b|r|r err|r res|r err|t|w tx|i|i rs f|i|i|dt];
    simpl in Hev; try discriminate; apply Nat.eqb_eq in Hev as ->;
    unfold step; by rewrite Hgone.
Qed.

(** X15: take a call whose amount and address pass validation, whose
    subscription to the feed is set up, and any callbacks in between that do
    not settle its own promises.  If the initiator then reports success, a
    [payment_success] with the message and the amount is broadcast and the
    answer is 200 with [{success: true, message}]; if it reports failure, a
    [payment_failure] with its message and [errorType] is broadcast and the
    answer is 409 exactly when the [errorType] is PHONE_MOVED_TOO_QUICKLY
    and 500 otherwise; if it throws a value other than [null] and
    [undefined], a [payment_failure] with SERVER_ERROR is broadcast, whose
    text carries the message of the error or, for want of one, "Internal
    server error during payment processing.", and the answer is 500. *)
Theorem initiate_payment_outcomes (st st2 : State) (body : Body) (amt : jsnum)
    (addr : string) (evs1 evs2 : list Event) :
  b_amount body = JNum amt →
  b_merchantAddress body = Some addr →
  invalid_amount (JNum amt) = false →
  invalid_address (Some addr) = false →
  forallb (λ ev, negb (settles (nextReq st) ev)) (evs1 ++ evs2) = true →
  run st (Request body :: evs1 ++ MonitorResolved (nextReq st) :: evs2)
  = Some st2 →
  (∀ r, ∃ st3 code,
     step st2 (InitiatorResolved (nextReq st) r) = Some st3
     ∧ effects st2 st3 =
         (if pr_success r
          then [EBroadcast (mkMessage payment_success (TLit (pr_message r))
                              (Some amt) None false);
                ERespond (nextReq st)
                         (mkResponse 200 (BSuccess (pr_message r)))]
          else [EBroadcast (mkMessage payment_failure (TLit (pr_message r))
                              None (pr_errorType r) false);
                ERespond (nextReq st)
                         (mkResponse code (BFailure (pr_message r)
                                                    (pr_errorType r)))])
     ∧ (pr_errorType r = Some "PHONE_MOVED_TOO_QUICKLY" → code = 409)
     ∧ (pr_errorType r ≠ Some "PHONE_MOVED_TOO_QUICKLY" → code = 500)
     ∧ suspended st3 !! nextReq st = None)
  ∧ (∀ m, ∃ st3 text,
     step st2 (InitiatorThrew (nextReq st) (ThrownValue m)) = Some st3
     ∧ effects st2 st3 =
         [EBroadcast (mkMessage payment_failure (TServerError text) None
                        (Some "SERVER_ERROR") false);
          ERespond (nextReq st)
                   (mkResponse 500 (BError "Internal server error"))]
     ∧ (∀ e, m = Some e → e ≠ "" → text = e)
     ∧ (m = None ∨ m = Some "" →
        text = "Internal server error during payment processing.")
     ∧ suspended st3 !! nextReq st = None).
Proof.
  intros Ha Hm Hva Hvm Hall Hrun.
  pose proof (parked_at_initiator st st2 body amt addr evs1 evs2
                Ha Hm Hva Hvm Hall Hrun) as Hs.
  split.
  - intros r. exists (handler_initiator_resolved (nextReq st) amt r st2),
                     (failure_status (pr_errorType r)).
    split; [unfold step; by rewrite Hs|].
    unfold handler_initiator_resolved, failure_status.
    split; [|split; [|split]].
    + destruct (pr_success r); apply effects_app; simpl;
        by rewrite <- app_assoc.
    + intros ->. by rewrite decide_True.
    + intros Hne. by rewrite decide_False.
    + destruct (pr_success r); simpl; apply lookup_delete_eq.
  - intros m. exists (handler_catch (nextReq st) (ThrownValue m) st2),
                     (errorMessage m).
    split; [unfold step; by rewrite Hs|]. split; [|split; [|split]].
    + apply effects_app. simpl. by rewrite <- app_assoc.
    + intros e -> Hne. unfold errorMessage. by rewrite decide_False.
    + intros [->| ->]; [done|]. unfold errorMessage. by rewrite decide_True.
    + simpl. apply lookup_delete_eq.
Qed.

End Outcomes.

(** ** The registry and the callbacks stay coherent; the feed callback *)

Section Coherence.

Variable isEthereumAddress : string → bool.

Local Abbreviation step := (step isEthereumAddress).
Local Abbreviation run := (run isEthereumAddress).

Lemma coherent_initial : coherent initial.
Proof. repeat split; intros; simplify_map_eq; try done. Qed.

(** A transition that hands out no timer and adds no session keeps the
    state coherent, provided each subscribed callback was there before or
    comes from a parked invocation. *)
Lemma coherent_shrink (st st' : State) :
  coherent st →
  nextTimer st' = nextTimer st →
  (∀ a s, activePayments st' !! a = Some s → activePayments st !! a = Some s) →
  (∀ rid addr amt t,
     suspended st' !! rid = Some (AwaitMonitor addr amt t) →
     suspended st !! rid = Some (AwaitMonitor addr amt t)) →
  (∀ w cb, watchers st' !! w = Some cb →
     watchers st !! w = Some cb
     ∨ ∃ rid, suspended st !! rid
              = Some (AwaitMonitor (w_address cb) (w_amount cb) (w_timeout cb))) →
  coherent st'.
Proof.
  intros (Hp & Hs & Hw) Hn Hpay Hsus Hwat. unfold coherent. rewrite Hn.
  split; [|split].
  - intros a s Ha. by apply Hp, Hpay.
  - intros rid addr amt t Hr. destruct (Hs _ _ _ _ (Hsus _ _ _ _ Hr)) as [? H].
    split; [done|]. intros a s Ha. by apply H, Hpay.
  - intros w cb Hc. destruct (Hwat _ _ Hc) as [Hold|[rid Hr]].
    + destruct (Hw _ _ Hold) as [? H]. split; [done|].
      intros a s Ha. by apply H, Hpay.
    + destruct (Hs _ _ _ _ Hr) as [? H]. split; [done|].
      intros a s Ha. by apply H, Hpay.
Qed.

Lemma coherent_accepted (st : State) (addr : string) (amt : jsnum) :
  coherent st → coherent (accepted addr amt st).
Proof.
  intros (Hp & Hs & Hw). unfold coherent, accepted. simpl.
  split; [|split].
  - intros a s [[<- <-]|[Hne Ha]]%lookup_insert_Some; simpl; [split; [lia|done]|].
    destruct (Hp _ _ Ha). split; [lia|done].
  - intros rid addr' amt' t [[<- [= <- <- <-]]|[Hne Hr]]%lookup_insert_Some.
    + split; [lia|].
      intros a s [[<- <-]|[Hne Ha]]%lookup_insert_Some; simpl; [done|].
      destruct (Hp _ _ Ha). lia.
    + destruct (Hs _ _ _ _ Hr) as [? H]. split; [lia|].
      intros a s [[<- <-]|[Hne' Ha]]%lookup_insert_Some; simpl; [lia|].
      by apply H.
  - intros w cb Hc. destruct (Hw _ _ Hc) as [? H]. split; [lia|].
    intros a s [[<- <-]|[Hne' Ha]]%lookup_insert_Some; simpl; [lia|].
    by apply H.
Qed.

Lemma step_coherent (st st' : State) (ev : Event) :
  coherent st → step st ev = Some st' → coherent st'.
Proof.
  intros Hc Hstep.
  destruct ev as [body|r|r err|r res|r err|t|w tx|i|i rs f|i|i|dt];
    simpl in Hstep.
  - injection Hstep as <-.
    destruct (initiatePaymentHandler_cases isEthereumAddress body st)
      as [(b & m & ->)|(addr & amt & ->)].
    + apply (coherent_shrink st); simpl; auto.
      intros rid addr amt t [_ H]%lookup_delete_Some. done.
    + by apply coherent_accepted.
  - destruct (suspended st !! r) as [[addr amt t|amt]|] eqn:Hr; try discriminate.
    injection Hstep as <-. apply (coherent_shrink st); simpl; auto.
    + intros rid addr' amt' t' [[_ [=]]|[_ H]]%lookup_insert_Some. done.
    + intros w cb [H|[_ H]]%lookup_app_Some; [by left|right].
      exists r. destruct (w - length (watchers st))%nat as [|n]; [|done].
      injection H as <-. done.
  - destruct (suspended st !! r) as [[addr amt t|amt]|] eqn:Hr; try discriminate.
    injection Hstep as <-.
    destruct err; apply (coherent_shrink st); simpl; auto.
    + intros a s [_ H]%lookup_delete_Some. done.
    + intros rid addr' amt' t' [_ H]%lookup_delete_Some. done.
    + intros a s [_ H]%lookup_delete_Some. done.
    + intros rid addr' amt' t' [_ H]%lookup_delete_Some. done.
  - destruct (suspended st !! r) as [[addr amt t|amt]|] eqn:Hr; try discriminate.
    injection Hstep as <-. unfold handler_initiator_resolved.
    destruct (pr_success res); apply (coherent_shrink st); simpl; auto;
      intros rid addr' amt' t' [_ H]%lookup_delete_Some; done.
  - destruct (suspended st !! r) as [[addr amt t|amt]|] eqn:Hr; try discriminate.
    injection Hstep as <-.
    destruct err; apply (coherent_shrink st); simpl; auto;
      intros rid addr' amt' t' [_ H]%lookup_delete_Some; done.
  - destruct (timers st !! t) as [addr|]; try discriminate.
    injection Hstep as <-. apply (coherent_shrink st); simpl; auto.
    intros a s [_ H]%lookup_delete_Some. done.
  - destruct (watchers st !! w) as [cb|]; try discriminate.
    injection Hstep as <-. unfold onTransaction.
    destruct (num_ge (tx_value tx) (w_amount cb)); [|done].
    apply (coherent_shrink st); simpl; auto.
    intros a s [_ H]%lookup_delete_Some. done.
  - destruct (has_client i (clients st)); try discriminate.
    injection Hstep as <-. apply (coherent_shrink st); simpl; auto.
  - injection Hstep as <-. apply (coherent_shrink st); simpl; auto.
  - injection Hstep as <-. apply (coherent_shrink st); simpl; auto.
  - injection Hstep as <-. apply (coherent_shrink st); simpl; auto.
  - injection Hstep as <-. apply (coherent_shrink st); simpl; auto.
Qed.

Lemma run_coherent (evs : list Event) (st st' : State) :
  coherent st → run st evs = Some st' → coherent st'.
Proof.
  revert st. induction evs as [|ev evs IH]; intros st Hc Hrun; simpl in Hrun.
  - by injection Hrun as <-.
  - destruct (step st ev) as [s|] eqn:Hstep; [|discriminate].
    eapply IH; [|done]. by eapply step_coherent.
Qed.

(** X16: in every state the server can reach, when the feed hands a
    transaction to a subscribed callback, the callback clears its timer,
    deletes the entry of its address and broadcasts [transaction_confirmed]
    if and only if [tx.value >= amount], where [amount] is the amount of the
    request that subscribed the callback; otherwise, and in particular when
    the value is strictly below, nothing changes and nothing is broadcast.
    The entry of the registry that holds the timer of the callback, if it
    is still there, is the session of that request: it is stored under the
    address of the callback and expects the same amount. *)
Theorem feed_event_threshold (evs : list Event) (st : State) (w : nat)
    (cb : Watcher) (tx : Tx) :
  run initial evs = Some st →
  watchers st !! w = Some cb →
  ∃ st', step st (FeedTx w tx) = Some st'
    ∧ (num_ge (tx_value tx) (w_amount cb) = true
       ↔ broadcasts st' =
         broadcasts st ++ [mkMessage transaction_confirmed
                             (TLit "Payment confirmed!") None None false])
    ∧ (num_ge (tx_value tx) (w_amount cb) = true →
         effects st st' = [EClearTimeout (w_timeout cb);
                           EDelete (w_address cb);
                           EBroadcast (mkMessage transaction_confirmed
                                         (TLit "Payment confirmed!")
                                         None None false)]
         ∧ activePayments st' !! w_address cb = None
         ∧ timers st' !! w_timeout cb = None)
    ∧ (num_ge (tx_value tx) (w_amount cb) = false → st' = st)
    ∧ (num_lt (tx_value tx) (w_amount cb) = true → st' = st)
    ∧ (∀ a s, activePayments st !! a = Some s → timeout s = w_timeout cb →
              a = w_address cb ∧ amount s = w_amount cb).
Proof.
  intros Hrun Hw.
  assert (Hc : coherent st) by (eapply run_coherent; [apply coherent_initial|done]).
  unfold step. rewrite Hw. eexists. split; [reflexivity|].
  unfold onTransaction.
  assert (Hlink : ∀ a s, activePayments st !! a = Some s →
                    timeout s = w_timeout cb →
                    a = w_address cb ∧ amount s = w_amount cb).
  { destruct Hc as (_ & _ & Hwat). by destruct (Hwat _ _ Hw). }
  destruct (num_ge (tx_value tx) (w_amount cb)) eqn:Hge.
  - split; [|split; [|split; [|split]]]; [| |done| |done].
    + split; [|done]. intros _. unfold broadcasts. simpl.
      by rewrite !broadcasts_of_app, !app_nil_r.
    + intros _. split; [|split].
      * apply effects_app. simpl. by rewrite <- !app_assoc.
      * simpl. apply lookup_delete_eq.
      * simpl. apply lookup_delete_eq.
    + intros Hlt. apply num_lt_not_ge in Hlt. congruence.
  - split; [|split; [|split; [|split]]]; try done.
    split; [done|]. intros H. by apply broadcasts_grow_ne in H.
Qed.

Lemma live_timers_for_elem (t : nat) (addr : string) (st : State) :
  timers st !! t = Some addr → t ∈ live_timers_for addr st.
Proof.
  intros H. unfold live_timers_for. apply list_elem_of_fmap.
  exists (t, addr). split; [done|].
  apply elem_of_map_to_list, map_lookup_filter_Some. by split.
Qed.

(** Clearing the timers of a list of sessions leaves every other timer
    pending. *)
Lemma timers_clear_sessions (l : list (string * PaymentSession)) (st : State)
    (t : nat) :
  (∀ kv, kv ∈ l → timeout kv.2 ≠ t) →
  timers (foldr (λ kv s, clearTimeout (timeout kv.2) s) st l) !! t
  = timers st !! t.
Proof.
  induction l as [|kv l IH]; intros H; [done|]. simpl.
  rewrite lookup_delete_ne by (apply H; left).
  apply IH. intros kv' Hin. apply H. by right.
Qed.

(** C2 fails on the code: a second request for an address whose session is
    still in the registry is not rejected, and the first session is
    overwritten without its timer being cleared.  Both timers stay pending
    for the same address, and the first is out of reach of the registry:
    the cleanup that [shutdown] runs over the registry does not clear it. *)
Theorem second_request_leaks_timer (evs : list Event) (st : State)
    (amt1 amt2 : jsnum) (addr : string) :
  run initial evs = Some st →
  invalid_amount (JNum amt1) = false →
  invalid_amount (JNum amt2) = false →
  invalid_address isEthereumAddress (Some addr) = false →
  let st1 := initiatePaymentHandler isEthereumAddress
               (mkBody (JNum amt1) (Some addr)) st in
  let st2 := initiatePaymentHandler isEthereumAddress
               (mkBody (JNum amt2) (Some addr)) st1 in
  let t1 := nextTimer st in
  let t2 := S (nextTimer st) in
  activePayments st1 !! addr = Some (mkSession amt1 addr (now st) t1)
  ∧ activePayments st2 !! addr = Some (mkSession amt2 addr (now st) t2)
  ∧ timers st2 !! t1 = Some addr
  ∧ timers st2 !! t2 = Some addr
  ∧ t1 ≠ t2
  ∧ t1 ∈ live_timers_for addr st2
  ∧ t2 ∈ live_timers_for addr st2
  ∧ effects st1 st2 = [EBroadcast (preparingMsg amt2); ESetTimeout t2 addr;
                       ESet addr; ESubscribe addr]
  ∧ timers (shutdown_payments st2) !! t1 = Some addr.
Proof.
  intros Hrun H1 H2 Hv st1 st2 t1 t2. subst st1 st2 t1 t2.
  assert (Hc : coherent st) by (eapply run_coherent; [apply coherent_initial|done]).
  rewrite (initiatePaymentHandler_accepted isEthereumAddress
             (mkBody (JNum amt1) (Some addr)) st amt1 addr) by done.
  rewrite (initiatePaymentHandler_accepted isEthereumAddress
             (mkBody (JNum amt2) (Some addr)) _ amt2 addr) by done.
  assert (Ht1 : timers (accepted addr amt2 (accepted addr amt1 st))
                !! nextTimer st = Some addr).
  { simpl. rewrite lookup_insert_ne by lia. apply lookup_insert_eq. }
  split; [simpl; apply lookup_insert_eq|].
  split; [simpl; apply lookup_insert_eq|].
  split; [exact Ht1|].
  split; [simpl; apply lookup_insert_eq|].
  split; [lia|].
  split; [by apply live_timers_for_elem|].
  split; [apply live_timers_for_elem; simpl; apply lookup_insert_eq|].
  split; [by apply effects_app|].
  unfold shutdown_payments.
  change (timers (with_payments ∅ ?s)) with (timers s).
  rewrite timers_clear_sessions; [exact Ht1|].
  intros [a s] Hin%elem_of_map_to_list. simpl in Hin |- *.
  apply lookup_insert_Some in Hin as [[_ <-]|[Hne Hin]]; simpl; [lia|].
  apply lookup_insert_Some in Hin as [[Heq _]|[_ Hin]]; [done|].
  destruct Hc as (Hp & _). destruct (Hp _ _ Hin). lia.
Qed.

End Coherence.

(** ** A callback that outlives its session *)

Section StaleCallback.

Variable isEthereumAddress : string → bool.

Local Abbreviation step := (step isEthereumAddress).
Local Abbreviation run := (run isEthereumAddress).
Local Abbreviation invalid_address := (invalid_address isEthereumAddress).

(** A valid request whose subscription is set up: the session is stored,
    its timer is armed, its callback is the last one subscribed and the
    invocation awaits the initiator. *)
Lemma run_monitoring (st : State) (amt : jsnum) (addr : string)
    (evs : list Event) :
  invalid_amount (JNum amt) = false →
  invalid_address (Some addr) = false →
  run st (Request (mkBody (JNum amt) (Some addr))
          :: MonitorResolved (nextReq st) :: evs)
  = run (monitoring addr amt st) evs.
Proof.
  intros Hva Hvm. simpl.
  rewrite (initiatePaymentHandler_accepted isEthereumAddress
             (mkBody (JNum amt) (Some addr)) st amt addr) by done.
  simpl. by rewrite lookup_insert_eq.
Qed.

(** C5 fails on the code: the callback compares the value of the event
    with the amount of the request that subscribed it, not with the amount
    the session of the registry expects, and it stays subscribed when its
    own session is over.  Take a payment of [a1] that is confirmed and
    answered, then a request of [a2] for the same address, and a feed event
    whose value is at least [a1] and strictly below [a2].  The callback of
    the pending session declines the event, as it must; the callback left
    over from the first payment takes it: it clears its own timer, long
    gone, deletes the pending session and broadcasts
    [transaction_confirmed], while the timer of the deleted session stays
    armed. *)
Theorem stale_callback_confirms_later_session (st : State) (a1 a2 : jsnum)
    (addr : string) (tx : Tx) (r : PaymentResult) :
  invalid_amount (JNum a1) = false →
  invalid_amount (JNum a2) = false →
  invalid_address (Some addr) = false →
  num_ge (tx_value tx) a1 = true →
  num_lt (tx_value tx) a2 = true →
  ∃ st1 st2,
    run st [Request (mkBody (JNum a1) (Some addr));
            MonitorResolved (nextReq st);
            FeedTx (length (watchers st)) tx;
            InitiatorResolved (nextReq st) r;
            Request (mkBody (JNum a2) (Some addr));
            MonitorResolved (S (nextReq st))] = Some st1
    ∧ activePayments st1 !! addr
      = Some (mkSession a2 addr (now st) (S (nextTimer st)))
    ∧ watchers st1 !! S (length (watchers st))
      = Some (mkWatcher addr a2 (S (nextTimer st)))
    ∧ step st1 (FeedTx (S (length (watchers st))) tx) = Some st1
    ∧ step st1 (FeedTx (length (watchers st)) tx) = Some st2
    ∧ effects st1 st2 =
        [EClearTimeout (nextTimer st); EDelete addr;
         EBroadcast (mkMessage transaction_confirmed
                       (TLit "Payment confirmed!") None None false)]
    ∧ activePayments st2 !! addr = None
    ∧ timers st2 !! S (nextTimer st) = Some addr.
Proof.
  intros Hv1 Hv2 Hvm Hge Hlt.
  pose proof (num_lt_not_ge _ _ Hlt) as Hnge.
  set (s1 := handler_initiator_resolved (nextReq st) a1 r
               (onTransaction (mkWatcher addr a1 (nextTimer st)) tx
                  (monitoring addr a1 st))).
  assert (Hrun1 : run st [Request (mkBody (JNum a1) (Some addr));
                          MonitorResolved (nextReq st);
                          FeedTx (length (watchers st)) tx;
                          InitiatorResolved (nextReq st) r] = Some s1).
  { rewrite run_monitoring by done. simpl.
    rewrite list_lookup_middle by done. simpl.
    unfold onTransaction at 1. simpl. rewrite Hge. simpl.
    rewrite lookup_insert_eq. subst s1. unfold onTransaction. simpl.
    by rewrite Hge. }
  assert (Hs1 : nextReq s1 = S (nextReq st) ∧ nextTimer s1 = S (nextTimer st)
                ∧ watchers s1 = watchers st ++ [mkWatcher addr a1 (nextTimer st)]
                ∧ now s1 = now st).
  { subst s1. unfold handler_initiator_resolved, onTransaction. simpl.
    rewrite Hge. by destruct (pr_success r). }
  destruct Hs1 as (Hreq & Htim & Hwat & Hnow).
  exists (monitoring addr a2 s1).
  exists (onTransaction (mkWatcher addr a1 (nextTimer st)) tx
            (monitoring addr a2 s1)).
  split.
  { change [Request (mkBody (JNum a1) (Some addr));
            MonitorResolved (nextReq st);
            FeedTx (length (watchers st)) tx;
            InitiatorResolved (nextReq st) r;
            Request (mkBody (JNum a2) (Some addr));
            MonitorResolved (S (nextReq st))]
      with ([Request (mkBody (JNum a1) (Some addr));
             MonitorResolved (nextReq st);
             FeedTx (length (watchers st)) tx;
             InitiatorResolved (nextReq st) r]
            ++ [Request (mkBody (JNum a2) (Some addr));
                MonitorResolved (S (nextReq st))]).
    rewrite run_app, Hrun1. rewrite <- Hreq.
    apply (run_monitoring s1 a2 addr []); done. }
  split; [simpl; rewrite Htim, Hnow; apply lookup_insert_eq|].
  assert (Hw2 : watchers (monitoring addr a2 s1)
                = watchers st ++ [mkWatcher addr a1 (nextTimer st);
                                  mkWatcher addr a2 (S (nextTimer st))]).
  { simpl. rewrite Hwat, Htim. by rewrite <- app_assoc. }
  split.
  { rewrite Hw2, lookup_app_r by lia.
    by replace (S (length (watchers st)) - length (watchers st))%nat
      with 1%nat by lia. }
  split.
  { unfold step. rewrite Hw2.
    rewrite lookup_app_r by lia.
    replace (S (length (watchers st)) - length (watchers st))%nat with 1%nat by lia.
    simpl. unfold onTransaction. simpl. by rewrite Hnge. }
  split.
  { unfold step. rewrite Hw2. by rewrite list_lookup_middle. }
  unfold onTransaction. simpl. rewrite Hge.
  split; [apply effects_app; simpl; by rewrite <- !app_assoc|].
  split; [simpl; apply lookup_delete_eq|].
  simpl. rewrite lookup_delete_ne by lia. rewrite Htim. apply lookup_insert_eq.
Qed.


End StaleCallback.

(** ** The price cache *)

Module PriceCacheFacts.
Import PriceCacheService.

Lemma replay_snoc (h : list Landing) (l : Landing) (m : gmap string Entry) :
  replay (h ++ [l]) m = cache_price l (replay h m).
Proof. unfold replay. by rewrite foldl_app. Qed.

Lemma last_success_snoc (asset : string) (h : list Landing) (l : Landing) :
  last_success asset (h ++ [l]) =
  match stores asset l with
  | Some e => Some e
  | None => last_success asset h
  end.
Proof. unfold last_success. by rewrite rev_unit. Qed.

Lemma cache_price_lookup (l : Landing) (m : gmap string Entry) (asset : string) :
  cache_price l m !! asset =
  match stores asset l with
  | Some e => Some e
  | None => m !! asset
  end.
Proof.
  unfold cache_price, stores.
  destruct (l_outcome l) as [|[p|]]; try by case_bool_decide.
  destruct (num_truthy p); [|by case_bool_decide].
  case_bool_decide as Hc.
  - rewrite Hc. apply lookup_insert_eq.
  - by apply lookup_insert_ne.
Qed.

(** The entry of an asset is its last successful fetch. *)
Lemma replay_lookup (h : list Landing) (asset : string) :
  replay h ∅ !! asset = last_success asset h.
Proof.
  induction h as [|l h IH] using rev_ind; [done|].
  by rewrite replay_snoc, last_success_snoc, cache_price_lookup, IH.
Qed.

Lemma stores_truthy (asset : string) (l : Landing) (e : Entry) :
  stores asset l = Some e → num_truthy (price e) = true.
Proof.
  unfold stores. case_bool_decide; [|done].
  destruct (l_outcome l) as [|[p|]]; try done.
  destruct (num_truthy p) eqn:Hp; [|done]. by intros [= <-].
Qed.

(** Only prices that JavaScript takes for true are stored, so a stored price
    is never the sentinel. *)
Lemma last_success_truthy (asset : string) (h : list Landing) (e : Entry) :
  last_success asset h = Some e → num_truthy (price e) = true.
Proof.
  induction h as [|l h IH] using rev_ind; [done|].
  rewrite last_success_snoc.
  destruct (stores asset l) as [e'|] eqn:Hs; [|done].
  intros [= <-]. by eapply stores_truthy.
Qed.

Lemma replay_app (h1 h2 : list Landing) (m : gmap string Entry) :
  replay (h1 ++ h2) m = replay h2 (replay h1 m).
Proof. unfold replay. by rewrite foldl_app. Qed.

(** The cache after a run is the cache before it with the iterations of the
    run replayed. *)
Lemma run_cachedPrices (evs : list Event) (s s' : Service) :
  run s evs = Some s' →
  cachedPrices s' = replay (landings evs) (cachedPrices s).
Proof.
  revert s. induction evs as [|ev evs IH]; intros s Hrun; simpl in Hrun.
  - by injection Hrun as <-.
  - destruct (step s ev) as [s1|] eqn:Hstep; [|discriminate].
    rewrite (IH s1 Hrun). clear IH Hrun.
    destruct ev as [| |l|i|]; simpl in Hstep |- *.
    + by injection Hstep as <-.
    + destruct (initializing s); [discriminate|]. by injection Hstep as <-.
    + by injection Hstep as <-.
    + destruct (bool_decide _); [|discriminate]. by injection Hstep as <-.
    + injection Hstep as <-. unfold stop. by destruct (refreshInterval s).
Qed.

(** C6: after any run of the service, [getCachedPrice] returns the price of
    the last successful fetch of the asset when that fetch landed strictly
    less than 60000 ms (the refresh period) before the call, and the zero
    sentinel otherwise, that is when no fetch of the asset succeeded or the
    last success is 60000 ms old or older; the two cases are told apart by
    the result, which is the sentinel only in the second.  A successful
    fetch sets the age of the entry to zero, and its price is served from
    then on. *)
Theorem getCachedPrice_fresh_or_sentinel (evs : list Event) (s : Service)
    (now : Z) (asset : string) :
  run initial evs = Some s →
  getCachedPrice (cachedPrices s) now asset
  = getPrice_spec (landings evs) now asset
  ∧ (∀ e, last_success asset (landings evs) = Some e →
          now - timestamp e < REFRESH_INTERVAL_MS →
          getCachedPrice (cachedPrices s) now asset = price e)
  ∧ (∀ e, last_success asset (landings evs) = Some e →
          REFRESH_INTERVAL_MS ≤ now - timestamp e →
          getCachedPrice (cachedPrices s) now asset = num_zero)
  ∧ (last_success asset (landings evs) = None →
     getCachedPrice (cachedPrices s) now asset = num_zero)
  ∧ (num_truthy (getCachedPrice (cachedPrices s) now asset) = true
     ↔ ∃ e, last_success asset (landings evs) = Some e
            ∧ now - timestamp e < REFRESH_INTERVAL_MS)
  ∧ REFRESH_INTERVAL_MS = 60000
  ∧ (∀ p t, num_truthy p = true →
       ∃ s', step s (Landed (mkLanding asset (Data (Some p)) t)) = Some s'
             ∧ age (cachedPrices s') t asset = Some 0
             ∧ getCachedPrice (cachedPrices s') t asset = p).
Proof.
  intros Hrun. apply run_cachedPrices in Hrun. simpl in Hrun.
  set (h := landings evs) in *.
  assert (Hget : getCachedPrice (cachedPrices s) now asset
                 = getPrice_spec h now asset).
  { unfold getCachedPrice, getPrice_spec. by rewrite Hrun, replay_lookup. }
  split; [exact Hget|]. rewrite Hget. unfold getPrice_spec.
  split; [|split; [|split; [|split; [|split]]]].
  - intros e -> Hlt. apply Z.ltb_lt in Hlt.
    unfold REFRESH_INTERVAL_MS in Hlt. by rewrite Hlt.
  - intros e -> Hge. apply Z.ltb_ge in Hge.
    unfold REFRESH_INTERVAL_MS in Hge. by rewrite Hge.
  - by intros ->.
  - destruct (last_success asset h) as [e|] eqn:He.
    + destruct (now - timestamp e <? 60000) eqn:Hlt.
      * split; [|intros _; by eapply last_success_truthy].
        intros _. exists e. split; [done|]. by apply Z.ltb_lt.
      * split; [done|]. intros (e' & [= <-] & Hlt').
        apply Z.ltb_lt in Hlt'. unfold REFRESH_INTERVAL_MS in Hlt'. congruence.
    + split; [done|]. by intros (e' & ? & _).
  - reflexivity.
  - intros p t Hp. eexists. split; [reflexivity|]. simpl.
    unfold age, getCachedPrice.
    rewrite cache_price_lookup. unfold stores. simpl.
    rewrite bool_decide_eq_true_2, Hp by done. simpl.
    rewrite Z.sub_diag. by split.
Qed.

Lemma clearInterval_own (i : nat) (p : Z) : clearInterval i [(i, p)] = [].
Proof.
  unfold clearInterval. rewrite filter_cons_False; [done|]. simpl. by intros [].
Qed.

Lemma startPeriodicRefresh_single (s : Service) :
  tracked s →
  intervals (startPeriodicRefresh s) = [(nextInterval s, REFRESH_INTERVAL_MS)]
  ∧ refreshInterval (startPeriodicRefresh s) = Some (nextInterval s).
Proof.
  unfold tracked, startPeriodicRefresh. intros H. simpl. split; [|done].
  rewrite H. destruct (refreshInterval s) as [i|]; [|done].
  by rewrite clearInterval_own.
Qed.

Lemma step_tracked (s s' : Service) (ev : Event) :
  tracked s → step s ev = Some s' → tracked s'.
Proof.
  intros H Hstep. destruct ev as [| |l|i|]; simpl in Hstep.
  - by injection Hstep as <-.
  - destruct (initializing s) as [|n]; [discriminate|].
    injection Hstep as <-.
    destruct (startPeriodicRefresh_single
                (mkService (cachedPrices s) (refreshInterval s) (intervals s)
                           (nextInterval s) n) H) as [Hi Hr].
    unfold tracked. by rewrite Hi, Hr.
  - by injection Hstep as <-.
  - destruct (bool_decide _); [|discriminate]. by injection Hstep as <-.
  - injection Hstep as <-. unfold stop, tracked in *.
    destruct (refreshInterval s) as [i|] eqn:Hr; simpl.
    + by rewrite H, clearInterval_own.
    + by rewrite H, Hr.
Qed.

Lemma run_tracked (evs : list Event) (s s' : Service) :
  tracked s → run s evs = Some s' → tracked s'.
Proof.
  revert s. induction evs as [|ev evs IH]; intros s H Hrun; simpl in Hrun.
  - by injection Hrun as <-.
  - destruct (step s ev) as [s1|] eqn:Hstep; [|discriminate].
    eapply IH; [|done]. by eapply step_tracked.
Qed.

(** C10: whatever calls of [initialize] and [stop], refresh ticks and
    fetches have run since the class was loaded, at most one interval timer
    is scheduled, it is the one [refreshInterval] holds, and a further
    [startPeriodicRefresh] clears it before it installs the next, which is
    then the only one. *)
Theorem single_refresh_timer (evs : list Event) (s : Service) :
  run initial evs = Some s →
  (length (intervals s) ≤ 1)%nat
  ∧ intervals s = match refreshInterval s with
                  | Some i => [(i, REFRESH_INTERVAL_MS)]
                  | None => []
                  end
  ∧ intervals (startPeriodicRefresh s) = [(nextInterval s, REFRESH_INTERVAL_MS)]
  ∧ ∀ s', step s Initialize = Some s' →
      ∃ s'', step s' InitializeResumed = Some s''
             ∧ length (intervals s'') = 1%nat.
Proof.
  intros Hrun.
  assert (H : tracked s) by (by eapply (run_tracked evs initial)).
  split; [|split; [done|split]].
  - rewrite H. destruct (refreshInterval s); simpl; lia.
  - by apply startPeriodicRefresh_single.
  - intros s' [= <-]. simpl. eexists. split; [reflexivity|].
    destruct (startPeriodicRefresh_single
                (mkService (cachedPrices s) (refreshInterval s) (intervals s)
                           (nextInterval s) (initializing s)) H) as [Hi _].
    by rewrite Hi.
Qed.

Lemma single_refresh_timer_witness :
  run initial thrice = Some after_thrice
  ∧ (length (intervals after_thrice) ≤ 1)%nat
  ∧ intervals after_thrice = [(2%nat, REFRESH_INTERVAL_MS)]
  ∧ intervals (startPeriodicRefresh after_thrice) = [(3%nat, REFRESH_INTERVAL_MS)]
  ∧ ∀ s', step after_thrice Initialize = Some s' →
      ∃ s'', step s' InitializeResumed = Some s''
             ∧ length (intervals s'') = 1%nat.
Proof.
  split; [reflexivity|].
  apply (single_refresh_timer thrice after_thrice). reflexivity.
Defined.

End PriceCacheFacts.

(** ** The statements above at the sample states *)


Lemma feed_event_threshold_witness :
  ∃ st', step sample_isEthereumAddress pending_payment
              (FeedTx 0 (mkTx (Fin 10%Q))) = Some st'
    ∧ (num_ge (Fin 10%Q) (Fin 10%Q) = true
       ↔ broadcasts st' =
         broadcasts pending_payment
         ++ [mkMessage transaction_confirmed (TLit "Payment confirmed!")
                       None None false])
    ∧ (num_ge (Fin 10%Q) (Fin 10%Q) = true →
         effects pending_payment st'
         = [EClearTimeout 0; EDelete sample_address;
            EBroadcast (mkMessage transaction_confirmed
                          (TLit "Payment confirmed!") None None false)]
         ∧ activePayments st' !! sample_address = None
         ∧ timers st' !! 0%nat = None)
    ∧ (num_ge (Fin 10%Q) (Fin 10%Q) = false → st' = pending_payment)
    ∧ (num_lt (Fin 10%Q) (Fin 10%Q) = true → st' = pending_payment)
    ∧ (∀ a s, activePayments pending_payment !! a = Some s → timeout s = 0%nat →
              a = sample_address ∧ amount s = Fin 10%Q).
Proof.
  apply (feed_event_threshold sample_isEthereumAddress
           [WsConnect 7; Request sample_body; MonitorResolved 0]
           pending_payment 0
           (mkWatcher sample_address (Fin 10%Q) 0) (mkTx (Fin 10%Q)));
    by vm_compute.
Defined.


Lemma monitoring_failure_cleans_up_witness :
  ∃ st', step sample_isEthereumAddress requested
              (MonitorRejected 0 (ThrownValue (Some "feed down"))) = Some st'
    ∧ timers st' !! 0%nat = None
    ∧ activePayments st' !! sample_address = None
    ∧ suspended st' !! 0%nat = None
    ∧ watchers st' = watchers requested
    ∧ effects requested st' =
        [EClearTimeout 0; EDelete sample_address;
         EBroadcast (mkMessage payment_failure
                       (TLit "Failed to monitor transaction") None
                       (Some "MONITORING_ERROR") false);
         EBroadcast (mkMessage payment_failure
                       (TServerError "feed down") None
                       (Some "SERVER_ERROR") false);
         ERespond 0 (mkResponse 500 (BError "Internal server error"))]
    ∧ (∀ i c, clients requested !! i = Some c →
         is_open (ws_readyState c) && negb (ws_faulty c) = true →
         ∃ c' more, clients st' !! i = Some c'
           ∧ ws_inbox c' =
             ws_inbox c
             ++ mkMessage payment_failure
                  (TLit "Failed to monitor transaction") None
                  (Some "MONITORING_ERROR") false :: more).
Proof.
  apply (monitoring_failure_cleans_up sample_isEthereumAddress requested 0
           sample_address (Fin 10%Q) 0 (ThrownValue (Some "feed down"))).
  by vm_compute.
Defined.

Lemma nullish_throw_is_not_answered_witness :
  ∃ st3, step sample_isEthereumAddress armed (InitiatorThrew 0 ThrownNullish)
         = Some st3
    ∧ effects armed st3 = []
    ∧ broadcasts st3 = broadcasts armed
    ∧ responses st3 = responses armed
    ∧ suspended st3 !! 0%nat = None
    ∧ ∀ ev, settles 0 ev = true → step sample_isEthereumAddress st3 ev = None.
Proof.
  apply (nullish_throw_is_not_answered sample_isEthereumAddress initial armed
           sample_body (Fin 10%Q) sample_address
           [WsConnect 7] [FeedTx 0 (mkTx (Fin 3%Q))]);
    by vm_compute.
Defined.

Lemma stale_callback_confirms_later_session_witness :
  ∃ st1 st2,
    run sample_isEthereumAddress initial
        [Request (mkBody (JNum (Fin 5%Q)) (Some sample_address));
         MonitorResolved 0;
         FeedTx 0 (mkTx (Fin 5%Q));
         InitiatorResolved 0 sample_success;
         Request (mkBody (JNum (Fin 100%Q)) (Some sample_address));
         MonitorResolved 1] = Some st1
    ∧ activePayments st1 !! sample_address
      = Some (mkSession (Fin 100%Q) sample_address 0 1)
    ∧ watchers st1 !! 1%nat = Some (mkWatcher sample_address (Fin 100%Q) 1)
    ∧ step sample_isEthereumAddress st1 (FeedTx 1 (mkTx (Fin 5%Q))) = Some st1
    ∧ step sample_isEthereumAddress st1 (FeedTx 0 (mkTx (Fin 5%Q))) = Some st2
    ∧ effects st1 st2 =
        [EClearTimeout 0; EDelete sample_address;
         EBroadcast (mkMessage transaction_confirmed
                       (TLit "Payment confirmed!") None None false)]
    ∧ activePayments st2 !! sample_address = None
    ∧ timers st2 !! 1%nat = Some sample_address.
Proof.
  apply (stale_callback_confirms_later_session sample_isEthereumAddress
           initial (Fin 5%Q) (Fin 100%Q) sample_address (mkTx (Fin 5%Q))
           sample_success);
    by vm_compute.
Defined.

Lemma late_feed_event_broadcasts_again_witness :
  ∃ st1 st2,
    step sample_isEthereumAddress pending_payment (FeedTx 0 (mkTx (Fin 10%Q)))
    = Some st1
    ∧ activePayments st1 !! sample_address = None
    ∧ timers st1 !! 0%nat = None
    ∧ watchers st1 !! 0%nat = Some (mkWatcher sample_address (Fin 10%Q) 0)
    ∧ step sample_isEthereumAddress st1 (FeedTx 0 (mkTx (Fin 10%Q))) = Some st2
    ∧ broadcasts st2 = broadcasts st1 ++ [confirmedMsg]
    ∧ st2 ≠ st1.
Proof.
  apply (late_feed_event_broadcasts_again sample_isEthereumAddress
           pending_payment 0 (mkWatcher sample_address (Fin 10%Q) 0)
           (mkTx (Fin 10%Q))); reflexivity.
Defined.

Lemma infinite_amount_accepted_witness :
  invalid_address sample_isEthereumAddress (Some sample_address) = false
  ∧ let st' := initiatePaymentHandler sample_isEthereumAddress
                 (mkBody (JNum PosInf) (Some sample_address)) initial in
    isFinite PosInf = false
    ∧ responses st' = responses initial
    ∧ activePayments st' !! sample_address
      = Some (mkSession PosInf sample_address 0 0)
    ∧ timers st' !! 0%nat = Some sample_address
    ∧ suspended st' !! 0%nat = Some (AwaitMonitor sample_address PosInf 0)
    ∧ effects initial st' = [EBroadcast (preparingMsg PosInf);
                             ESetTimeout 0 sample_address;
                             ESet sample_address; ESubscribe sample_address].
Proof.
  split; [reflexivity|].
  apply (infinite_amount_accepted sample_isEthereumAddress initial
           sample_address).
  reflexivity.
Defined.

Lemma second_request_leaks_timer_witness :
  let st1 := initiatePaymentHandler sample_isEthereumAddress
               (mkBody (JNum (Fin 10%Q)) (Some sample_address)) initial in
  let st2 := initiatePaymentHandler sample_isEthereumAddress
               (mkBody (JNum (Fin 25%Q)) (Some sample_address)) st1 in
  activePayments st1 !! sample_address
  = Some (mkSession (Fin 10%Q) sample_address 0 0)
  ∧ activePayments st2 !! sample_address
    = Some (mkSession (Fin 25%Q) sample_address 0 1)
  ∧ timers st2 !! 0%nat = Some sample_address
  ∧ timers st2 !! 1%nat = Some sample_address
  ∧ 0%nat ≠ 1%nat
  ∧ 0%nat ∈ live_timers_for sample_address st2
  ∧ 1%nat ∈ live_timers_for sample_address st2
  ∧ effects st1 st2 = [EBroadcast (preparingMsg (Fin 25%Q));
                       ESetTimeout 1 sample_address;
                       ESet sample_address; ESubscribe sample_address]
  ∧ timers (shutdown_payments st2) !! 0%nat = Some sample_address.
Proof.
  apply (second_request_leaks_timer sample_isEthereumAddress [] initial
           (Fin 10%Q) (Fin 25%Q) sample_address); reflexivity.
Defined.

Lemma initiate_payment_outcomes_witness :
  (∀ r, ∃ st3 code,
     step sample_isEthereumAddress armed (InitiatorResolved 0 r) = Some st3
     ∧ effects armed st3 =
         (if pr_success r
          then [EBroadcast (mkMessage payment_success (TLit (pr_message r))
                              (Some (Fin 10%Q)) None false);
                ERespond 0 (mkResponse 200 (BSuccess (pr_message r)))]
          else [EBroadcast (mkMessage payment_failure (TLit (pr_message r))
                              None (pr_errorType r) false);
                ERespond 0 (mkResponse code (BFailure (pr_message r)
                                                      (pr_errorType r)))])
     ∧ (pr_errorType r = Some "PHONE_MOVED_TOO_QUICKLY" → code = 409)
     ∧ (pr_errorType r ≠ Some "PHONE_MOVED_TOO_QUICKLY" → code = 500)
     ∧ suspended st3 !! 0%nat = None)
  ∧ (∀ m, ∃ st3 text,
     step sample_isEthereumAddress armed (InitiatorThrew 0 (ThrownValue m))
     = Some st3
     ∧ effects armed st3 =
         [EBroadcast (mkMessage payment_failure (TServerError text) None
                        (Some "SERVER_ERROR") false);
          ERespond 0 (mkResponse 500 (BError "Internal server error"))]
     ∧ (∀ e, m = Some e → e ≠ "" → text = e)
     ∧ (m = None ∨ m = Some "" →
        text = "Internal server error during payment processing.")
     ∧ suspended st3 !! 0%nat = None).
Proof.
  apply (initiate_payment_outcomes sample_isEthereumAddress initial armed
           sample_body (Fin 10%Q) sample_address
           [WsConnect 7] [FeedTx 0 (mkTx (Fin 3%Q))]);
    by vm_compute.
Defined.

Lemma getCachedPrice_fresh_or_sentinel_witness :
  PriceCacheService.getCachedPrice
    (PriceCacheService.cachedPrices PriceCacheService.after_sample_events)
    60999 "polkadot"
  = Fin 7.5%Q
  ∧ PriceCacheService.getCachedPrice
      (PriceCacheService.cachedPrices PriceCacheService.after_sample_events)
      61000 "polkadot"
    = num_zero.
Proof.
  assert (Hrun : PriceCacheService.run PriceCacheService.initial
                   PriceCacheService.sample_events
                 = Some PriceCacheService.after_sample_events)
    by (by vm_compute).
  destruct (PriceCacheFacts.getCachedPrice_fresh_or_sentinel
              PriceCacheService.sample_events
              PriceCacheService.after_sample_events 60999 "polkadot" Hrun)
    as (_ & Hfresh & _).
  destruct (PriceCacheFacts.getCachedPrice_fresh_or_sentinel
              PriceCacheService.sample_events
              PriceCacheService.after_sample_events 61000 "polkadot" Hrun)
    as (_ & _ & Hstale & _).
  split.
  - apply (Hfresh (PriceCacheService.mkEntry (Fin 7.5%Q) 1000));
      by vm_compute.
  - apply (Hstale (PriceCacheService.mkEntry (Fin 7.5%Q) 1000));
      by vm_compute.
Defined.

(* ===================================================================== *)
(** * Part III: further properties of the code                           *)
(* ===================================================================== *)

(** ** Requests: validation of the address, and accounting *)

Section Accounting.

Variable isEthereumAddress : string → bool.

Local Abbreviation step := (step isEthereumAddress).
Local Abbreviation run := (run isEthereumAddress).
Local Abbreviation invalid_address := (invalid_address isEthereumAddress).

Ltac responses_simpl :=
  unfold responses; simpl; rewrite ?responses_of_app; simpl;
  rewrite ?app_nil_r.

(** X1: a request whose amount passes and whose address is missing, empty or
    refused by the address check is answered with 400 "Invalid merchant
    address" after one advisory broadcast; no session, timer or
    subscription is created and the invocation is over. *)
Theorem invalid_address_rejected (body : Body) (st : State) (amt : jsnum) :
  b_amount body = JNum amt →
  invalid_amount (JNum amt) = false →
  invalid_address (b_merchantAddress body) = true →
  let st' := initiatePaymentHandler isEthereumAddress body st in
  effects st st' = [EBroadcast invalidAddressMsg;
                    ERespond (nextReq st)
                      (mkResponse 400 (BError "Invalid merchant address"))]
  ∧ activePayments st' = activePayments st
  ∧ timers st' = timers st
  ∧ watchers st' = watchers st
  ∧ suspended st' !! nextReq st = None
  ∧ nextReq st' = S (nextReq st).
Proof.
  intros Ha Hva Hvm. unfold initiatePaymentHandler. rewrite Ha.
  simpl in Hva. rewrite Hva.
  assert (H : ∀ s, effects s (reject_address (nextReq s)
                      (with_suspended (suspended s) (S (nextReq s)) s))
              = [EBroadcast invalidAddressMsg;
                 ERespond (nextReq s)
                   (mkResponse 400 (BError "Invalid merchant address"))]).
  { intros s. apply effects_app. simpl. by rewrite <- app_assoc. }
  destruct (b_merchantAddress body) as [addr|]; simpl in Hvm; rewrite ?Hvm;
    (split; [apply H|]); simpl; repeat split; apply lookup_delete_eq.
Qed.

(** What one callback does to the book-keeping of the requests: it leaves
    it alone, answers or parks the request that enters, answers or parks
    again a request that was parked, or ends a parked invocation with no
    answer. *)
Lemma step_requests (st st' : State) (ev : Event) :
  step st ev = Some st' →
  (nextReq st' = nextReq st ∧ responses st' = responses st
   ∧ suspended st' = suspended st)
  ∨ (∃ r, nextReq st' = S (nextReq st)
          ∧ responses st' = responses st ++ [(nextReq st, r)]
          ∧ suspended st' = delete (nextReq st) (suspended st))
  ∨ (∃ k, nextReq st' = S (nextReq st)
          ∧ responses st' = responses st
          ∧ suspended st' = <[nextReq st := k]> (suspended st))
  ∨ (∃ rid r, is_Some (suspended st !! rid)
              ∧ nextReq st' = nextReq st
              ∧ responses st' = responses st ++ [(rid, r)]
              ∧ suspended st' = delete rid (suspended st))
  ∨ (∃ rid k, is_Some (suspended st !! rid)
              ∧ nextReq st' = nextReq st
              ∧ responses st' = responses st
              ∧ suspended st' = <[rid := k]> (suspended st))
  ∨ (∃ rid, is_Some (suspended st !! rid)
            ∧ nextReq st' = nextReq st
            ∧ responses st' = responses st
            ∧ suspended st' = delete rid (suspended st)).
Proof.
  intros Hstep.
  destruct ev as [body|r|r err|r res|r err|t|w tx|i|i rs f|i|i|dt];
    simpl in Hstep.
  - injection Hstep as <-.
    destruct (initiatePaymentHandler_cases isEthereumAddress body st)
      as [(b & m & ->)|(addr & amt & ->)].
    + right. left. eexists. split; [done|]. split; [|done].
      by responses_simpl.
    + right. right. left. eexists. split; [done|]. split; [|done].
      by responses_simpl.
  - destruct (suspended st !! r) as [[addr amt t|amt]|] eqn:Hr; try discriminate.
    injection Hstep as <-. do 4 right. left. exists r. eexists.
    split; [by rewrite Hr|]. split; [done|]. split; [|done].
    by responses_simpl.
  - destruct (suspended st !! r) as [[addr amt t|amt]|] eqn:Hr; try discriminate.
    injection Hstep as <-. destruct err as [|m].
    + do 5 right. exists r.
      split; [by rewrite Hr|]. split; [done|]. split; [|done].
      by responses_simpl.
    + do 3 right. left. exists r. eexists.
      split; [by rewrite Hr|]. split; [done|]. split; [|done].
      by responses_simpl.
  - destruct (suspended st !! r) as [[addr amt t|amt]|] eqn:Hr; try discriminate.
    injection Hstep as <-. do 3 right. left. exists r.
    unfold handler_initiator_resolved.
    destruct (pr_success res); eexists;
      (split; [by rewrite Hr|]); (split; [done|]); (split; [|done]);
      by responses_simpl.
  - destruct (suspended st !! r) as [[addr amt t|amt]|] eqn:Hr; try discriminate.
    injection Hstep as <-. destruct err as [|m].
    + do 5 right. exists r. by rewrite Hr.
    + do 3 right. left. exists r. eexists.
      split; [by rewrite Hr|]. split; [done|]. split; [|done].
      by responses_simpl.
  - destruct (timers st !! t) as [addr|]; try discriminate.
    injection Hstep as <-. left. split; [done|]. split; [|done].
    by responses_simpl.
  - destruct (watchers st !! w) as [cb|]; try discriminate.
    injection Hstep as <-. left. unfold onTransaction.
    destruct (num_ge (tx_value tx) (w_amount cb)); [|done].
    split; [done|]. split; [|done]. by responses_simpl.
  - destruct (has_client i (clients st)); try discriminate.
    injection Hstep as <-. by left.
  - injection Hstep as <-. by left.
  - injection Hstep as <-. by left.
  - injection Hstep as <-. by left.
  - injection Hstep as <-. by left.
Qed.

Lemma requests_accounted_initial : requests_accounted initial.
Proof.
  split; [constructor|]. intros rid. split.
  - intros [H|[k H]]; [by apply elem_of_nil in H|done].
  - intros [H _]. by apply elem_of_nil in H.
Qed.

Lemma step_requests_accounted (st st' : State) (ev : Event) :
  requests_accounted st → step st ev = Some st' → requests_accounted st'.
Proof.
  intros [Hnd Hacc] Hstep. unfold requests_accounted, answered in *.
  assert (Hf1 : nextReq st ∉ ((responses st).*1)).
  { intros H. destruct (Hacc (nextReq st)) as [Hlt _].
    assert (nextReq st < nextReq st)%nat by (apply Hlt; by left). lia. }
  assert (Hf2 : suspended st !! nextReq st = None).
  { destruct (suspended st !! nextReq st) eqn:E; [|done].
    destruct (Hacc (nextReq st)) as [Hlt _].
    assert (nextReq st < nextReq st)%nat
      by (apply Hlt; right; rewrite E; eauto). lia. }
  destruct (step_requests st st' ev Hstep)
    as [(-> & -> & ->)
       |[(r & -> & -> & ->)
        |[(k & -> & -> & ->)
         |[(rid0 & r & Hs & -> & -> & ->)
          |[(rid0 & k & Hs & -> & -> & ->)
           |(rid0 & Hs & -> & -> & ->)]]]]].
  - done.
  - rewrite fmap_app. simpl. split.
    + apply NoDup_app. split; [done|]. split; [|apply NoDup_singleton].
      intros x Hx ->%list_elem_of_singleton. done.
    + intros rid. destruct (Hacc rid) as [Hlt Hex].
      destruct (decide (rid = nextReq st)) as [->|Hne].
      * rewrite lookup_delete_eq. split; [intros _; lia|].
        intros [_ [? ?]]. done.
      * rewrite lookup_delete_ne, elem_of_app, list_elem_of_singleton by done.
        split; [|intros [[?|?] ?]; [tauto|done]].
        intros [[?|?]|?]; [|done|]; assert (rid < nextReq st)%nat by tauto; lia.
  - split; [done|]. intros rid. destruct (Hacc rid) as [Hlt Hex].
    destruct (decide (rid = nextReq st)) as [->|Hne].
    + rewrite lookup_insert_eq. split; [intros _; lia|]. intros [? _]. done.
    + rewrite lookup_insert_ne by done. split; [|done].
      intros ?. assert (rid < nextReq st)%nat by tauto. lia.
  - assert (Hn : rid0 ∉ ((responses st).*1)).
    { intros H. by apply (proj2 (Hacc rid0)). }
    rewrite fmap_app. simpl. split.
    + apply NoDup_app. split; [done|]. split; [|apply NoDup_singleton].
      intros x Hx ->%list_elem_of_singleton. done.
    + intros rid. destruct (Hacc rid) as [Hlt Hex].
      destruct (decide (rid = rid0)) as [->|Hne].
      * rewrite lookup_delete_eq. split; [intros _; apply Hlt; by right|].
        intros [_ [? ?]]. done.
      * rewrite lookup_delete_ne, elem_of_app, list_elem_of_singleton by done.
        split; [|intros [[?|?] ?]; [tauto|done]].
        intros [[?|?]|?]; [tauto|done|tauto].
  - split; [done|]. intros rid. destruct (Hacc rid) as [Hlt Hex].
    destruct (decide (rid = rid0)) as [->|Hne].
    + rewrite lookup_insert_eq. split; [intros _; apply Hlt; by right|].
      intros [? _]. tauto.
    + by rewrite lookup_insert_ne.
  - split; [done|]. intros rid. destruct (Hacc rid) as [Hlt Hex].
    destruct (decide (rid = rid0)) as [->|Hne].
    + rewrite lookup_delete_eq. split; [intros _; apply Hlt; by right|].
      intros [_ [? ?]]. done.
    + by rewrite lookup_delete_ne.
Qed.

Lemma run_requests_accounted (evs : list Event) (st st' : State) :
  requests_accounted st → run st evs = Some st' → requests_accounted st'.
Proof.
  revert st. induction evs as [|ev evs IH]; intros st H Hrun; simpl in Hrun.
  - by injection Hrun as <-.
  - destruct (step st ev) as [s|] eqn:Hstep; [|discriminate].
    eapply IH; [|done]. by eapply step_requests_accounted.
Qed.

(** X3: in every state the server can reach, no request has been answered
    twice; a request that has its answer is a request that entered the
    handler and its invocation is over, parked at no [await]; and every
    parked invocation belongs to a request that entered the handler. *)
Theorem no_request_answered_twice (evs : list Event) (st : State) :
  run initial evs = Some st →
  NoDup (answered st)
  ∧ (∀ rid, rid ∈ answered st →
            suspended st !! rid = None ∧ (rid < nextReq st)%nat)
  ∧ (∀ rid, is_Some (suspended st !! rid) → (rid < nextReq st)%nat).
Proof.
  intros Hrun.
  destruct (run_requests_accounted evs initial st requests_accounted_initial
              Hrun) as [Hnd Hacc].
  split; [done|]. split.
  - intros rid Hin. destruct (Hacc rid) as [Hlt Hex]. split; [|auto].
    destruct (suspended st !! rid) eqn:E; [|done]. destruct Hex. eauto.
  - intros rid Hs. destruct (Hacc rid) as [Hlt _]. auto.
Qed.

End Accounting.

(** ** Observers: what reaches a socket, and in which order *)

Section Observers.

Variable isEthereumAddress : string → bool.

Local Abbreviation step := (step isEthereumAddress).
Local Abbreviation run := (run isEthereumAddress).

Ltac broadcasts_simpl :=
  unfold broadcasts; simpl; rewrite ?broadcasts_of_app; simpl;
  rewrite ?app_nil_r, <- ?app_assoc; simpl.

(** One callback hands some messages to [broadcast], in a row, and apart
    from that touches the registered set only if it is an event of a
    socket. *)
Lemma step_clients (st st' : State) (ev : Event) :
  step st ev = Some st' →
  ∃ ms, broadcasts st' = broadcasts st ++ ms
        ∧ clients st' = clients_after ev (broadcast_all ms (clients st)).
Proof.
  intros Hstep.
  destruct ev as [body|r|r err|r res|r err|t|w tx|i|i rs f|i|i|dt];
    simpl in Hstep.
  - injection Hstep as <-.
    destruct (initiatePaymentHandler_cases isEthereumAddress body st)
      as [(b & m & ->)|(addr & amt & ->)].
    + exists [m]. split; [by broadcasts_simpl|done].
    + exists [preparingMsg amt]. split; [by broadcasts_simpl|done].
  - destruct (suspended st !! r) as [[addr amt t|amt]|]; try discriminate.
    injection Hstep as <-. exists []. split; [by broadcasts_simpl|done].
  - destruct (suspended st !! r) as [[addr amt t|amt]|]; try discriminate.
    injection Hstep as <-. destruct err as [|e].
    + exists [monitoringErrorMsg]. split; [by broadcasts_simpl|done].
    + exists [monitoringErrorMsg; serverErrorMsg (errorMessage e)].
      split; [by broadcasts_simpl|done].
  - destruct (suspended st !! r) as [[addr amt t|amt]|]; try discriminate.
    injection Hstep as <-. unfold handler_initiator_resolved.
    destruct (pr_success res); eexists [_];
      (split; [by broadcasts_simpl|done]).
  - destruct (suspended st !! r) as [[addr amt t|amt]|]; try discriminate.
    injection Hstep as <-. destruct err as [|e].
    + exists []. by rewrite app_nil_r.
    + eexists [_]. split; [by broadcasts_simpl|done].
  - destruct (timers st !! t) as [addr|]; try discriminate.
    injection Hstep as <-. exists [timeoutMsg].
    split; [by broadcasts_simpl|done].
  - destruct (watchers st !! w) as [cb|]; try discriminate.
    injection Hstep as <-. unfold onTransaction.
    destruct (num_ge (tx_value tx) (w_amount cb)).
    + exists [confirmedMsg]. split; [by broadcasts_simpl|done].
    + exists []. by rewrite app_nil_r.
  - destruct (has_client i (clients st)); try discriminate.
    injection Hstep as <-. exists []. by rewrite app_nil_r.
  - injection Hstep as <-. exists []. by rewrite app_nil_r.
  - injection Hstep as <-. exists []. by rewrite app_nil_r.
  - injection Hstep as <-. exists []. by rewrite app_nil_r.
  - injection Hstep as <-. exists []. by rewrite app_nil_r.
Qed.

Lemma find_client_id (i : nat) (cs : list Client) (c : Client) :
  find_client i cs = Some c → ws_id c = i.
Proof.
  intros H. apply find_some in H as [_ H]. by apply Nat.eqb_eq in H.
Qed.

Lemma find_client_map (f : Client → Client) (i : nat) (cs : list Client) :
  (∀ c, ws_id (f c) = ws_id c) →
  find_client i (map f cs) = f <$> find_client i cs.
Proof.
  intros Hf. unfold find_client.
  induction cs as [|c cs IH]; [done|]. simpl. rewrite Hf.
  by destruct (ws_id c =? i)%nat.
Qed.

Lemma find_client_deliver (m : Message) (i : nat) (cs : list Client) :
  find_client i (broadcast_clients m cs) = deliver m <$> find_client i cs.
Proof. apply find_client_map. intros c. apply deliver_id. Qed.

(** What a row of broadcasts leaves in the inbox of a registered socket. *)
Lemma find_client_broadcast_all (ms : list Message) (i : nat)
    (cs : list Client) (c : Client) :
  find_client i cs = Some c →
  ∃ c', find_client i (broadcast_all ms cs) = Some c'
    ∧ ws_readyState c' = ws_readyState c
    ∧ ws_faulty c' = ws_faulty c
    ∧ ws_inbox c' = (if is_open (ws_readyState c) && negb (ws_faulty c)
                     then ws_inbox c ++ ms else ws_inbox c).
Proof.
  revert cs c. induction ms as [|m ms IH]; intros cs c Hc.
  - exists c. rewrite app_nil_r.
    by destruct (is_open (ws_readyState c) && negb (ws_faulty c)).
  - simpl.
    destruct (IH (broadcast_clients m cs) (deliver m c)) as (c' & Hc' & Hr & Hf & Hi).
    { by rewrite find_client_deliver, Hc. }
    exists c'. split; [done|].
    rewrite Hr, Hf, Hi, deliver_readyState, deliver_faulty, deliver_inbox.
    repeat split.
    destruct (is_open (ws_readyState c) && negb (ws_faulty c)); [|done].
    by rewrite <- app_assoc.
Qed.

Lemma find_client_after (ev : Event) (i : nat) (cs : list Client) :
  socket_event i ev = false →
  find_client i (clients_after ev cs) = find_client i cs.
Proof.
  intros Hev. unfold find_client.
  destruct ev as [body|r|r err|r res|r err|t|w tx|j|j rs f|j|j|dt];
    simpl in Hev |- *; try done.
  - unfold clients_add. simpl. destruct (has_client j cs); [done|].
    induction cs as [|c cs IH]; simpl.
    + by rewrite Hev.
    + by destruct (ws_id c =? i)%nat.
  - fold (find_client i (map (ws_change j rs f) cs)). fold (find_client i cs).
    rewrite find_client_map
      by (intros c; unfold ws_change; by destruct (ws_id c =? j)%nat).
    destruct (find_client i cs) as [c|] eqn:Hc; [|done]. simpl.
    apply find_client_id in Hc. unfold ws_change. by rewrite Hc, Nat.eqb_sym, Hev.
  - unfold clients_delete. induction cs as [|c cs IH]; [done|].
    rewrite filter_cons. destruct (decide (ws_id c ≠ j)) as [Hne|Heq]; simpl.
    + by rewrite IH.
    + apply dec_stable in Heq. by rewrite Heq, Hev, IH.
  - unfold clients_delete. induction cs as [|c cs IH]; [done|].
    rewrite filter_cons. destruct (decide (ws_id c ≠ j)) as [Hne|Heq]; simpl.
    + by rewrite IH.
    + apply dec_stable in Heq. by rewrite Heq, Hev, IH.
Qed.

Lemma run_delivers (evs : list Event) (st st' : State) (i : nat) (c : Client) :
  run st evs = Some st' →
  forallb (λ ev, negb (socket_event i ev)) evs = true →
  find_client i (clients st) = Some c →
  ∃ ms c', broadcasts st' = broadcasts st ++ ms
    ∧ find_client i (clients st') = Some c'
    ∧ ws_readyState c' = ws_readyState c
    ∧ ws_faulty c' = ws_faulty c
    ∧ ws_inbox c' = (if is_open (ws_readyState c) && negb (ws_faulty c)
                     then ws_inbox c ++ ms else ws_inbox c).
Proof.
  revert st c. induction evs as [|ev evs IH]; intros st c Hrun Hall Hc;
    simpl in Hrun, Hall.
  - injection Hrun as <-. exists [], c. rewrite !app_nil_r.
    by destruct (is_open (ws_readyState c) && negb (ws_faulty c)).
  - apply andb_true_iff in Hall as [Hev Hall]. apply negb_true_iff in Hev.
    destruct (step st ev) as [s|] eqn:Hstep; [|discriminate].
    destruct (step_clients st s ev Hstep) as (ms & Hb & Hcs).
    destruct (find_client_broadcast_all ms i (clients st) c Hc)
      as (c1 & Hc1 & Hr1 & Hf1 & Hi1).
    rewrite <- (find_client_after ev i _ Hev), <- Hcs in Hc1.
    destruct (IH s c1 Hrun Hall Hc1) as (ms' & c' & Hb' & Hc' & Hr' & Hf' & Hi').
    exists (ms ++ ms'), c'. rewrite Hb', Hb, Hr', Hf', Hi', Hr1, Hf1, Hi1.
    rewrite <- app_assoc. repeat split; [done|].
    destruct (is_open (ws_readyState c) && negb (ws_faulty c)); [|done].
    by rewrite <- app_assoc.
Qed.

(** X4: while a socket stays registered and nothing happens to it, every
    message handed to [broadcast] is appended to its inbox, once and in the
    order of the broadcasts, if the socket is open and its [send] works;
    nothing is appended otherwise. *)
Theorem broadcasts_delivered_in_order (evs : list Event) (st st' : State)
    (i : nat) (c : Client) :
  run st evs = Some st' →
  forallb (λ ev, negb (socket_event i ev)) evs = true →
  find_client i (clients st) = Some c →
  ∃ c', find_client i (clients st') = Some c'
    ∧ ws_readyState c' = ws_readyState c
    ∧ ws_faulty c' = ws_faulty c
    ∧ ws_inbox c' =
      (if is_open (ws_readyState c) && negb (ws_faulty c)
       then ws_inbox c ++ drop (length (broadcasts st)) (broadcasts st')
       else ws_inbox c).
Proof.
  intros Hrun Hall Hc.
  destruct (run_delivers evs st st' i c Hrun Hall Hc)
    as (ms & c' & Hb & Hc' & Hr & Hf & Hi).
  exists c'. rewrite Hb, drop_app_length. by repeat split.
Qed.

End Observers.

(** ** Sessions and their timers *)

Section Timers.

Variable isEthereumAddress : string → bool.

Local Abbreviation step := (step isEthereumAddress).
Local Abbreviation run := (run isEthereumAddress).
Local Abbreviation invalid_address := (invalid_address isEthereumAddress).

Lemma step_sessions_have_timers (st st' : State) (ev : Event) :
  coherent st → sessions_have_timers st → step st ev = Some st' →
  sessions_have_timers st'.
Proof.
  intros (Hp & Hs & Hw) Hinv Hstep. unfold sessions_have_timers in *.
  destruct ev as [body|r|r err|r res|r err|t|w tx|i|i rs f|i|i|dt];
    simpl in Hstep.
  - injection Hstep as <-.
    destruct (initiatePaymentHandler_cases isEthereumAddress body st)
      as [(b & m & ->)|(addr & amt & ->)]; [done|].
    simpl. intros a s [[<- <-]|[Hne Ha]]%lookup_insert_Some; simpl.
    + apply lookup_insert_eq.
    + destruct (Hp _ _ Ha). rewrite lookup_insert_ne by lia. by apply Hinv.
  - destruct (suspended st !! r) as [[addr amt t|amt]|]; try discriminate.
    by injection Hstep as <-.
  - destruct (suspended st !! r) as [[addr amt t|amt]|] eqn:Hr; try discriminate.
    injection Hstep as <-.
    destruct err as [|e]; simpl; intros a s [Hne Ha]%lookup_delete_Some;
      destruct (Hs _ _ _ _ Hr) as [_ H];
      (rewrite lookup_delete_ne; [by apply Hinv|]);
      intros Heq; symmetry in Heq; destruct (H _ _ Ha Heq); done.
  - destruct (suspended st !! r) as [[addr amt t|amt]|]; try discriminate.
    injection Hstep as <-. unfold handler_initiator_resolved.
    by destruct (pr_success res).
  - destruct (suspended st !! r) as [[addr amt t|amt]|]; try discriminate.
    injection Hstep as <-. by destruct err.
  - destruct (timers st !! t) as [addr|] eqn:Ht; try discriminate.
    injection Hstep as <-. simpl.
    intros a s [Hne Ha]%lookup_delete_Some.
    rewrite lookup_delete_ne; [by apply Hinv|].
    intros Heq. apply Hinv in Ha. rewrite <- Heq in Ha. congruence.
  - destruct (watchers st !! w) as [cb|] eqn:Hcb; try discriminate.
    injection Hstep as <-. unfold onTransaction.
    destruct (num_ge (tx_value tx) (w_amount cb)); [|done]. simpl.
    intros a s [Hne Ha]%lookup_delete_Some.
    destruct (Hw _ _ Hcb) as [_ H].
    rewrite lookup_delete_ne; [by apply Hinv|].
    intros Heq. symmetry in Heq. destruct (H _ _ Ha Heq). done.
  - destruct (has_client i (clients st)); try discriminate.
    by injection Hstep as <-.
  - by injection Hstep as <-.
  - by injection Hstep as <-.
  - by injection Hstep as <-.
  - by injection Hstep as <-.
Qed.

Lemma run_sessions_have_timers (evs : list Event) (st st' : State) :
  coherent st → sessions_have_timers st → run st evs = Some st' →
  sessions_have_timers st'.
Proof.
  revert st. induction evs as [|ev evs IH]; intros st Hc H Hrun; simpl in Hrun.
  - by injection Hrun as <-.
  - destruct (step st ev) as [s|] eqn:Hstep; [|discriminate].
    apply (IH s); [by eapply step_coherent|by eapply step_sessions_have_timers|done].
Qed.

(** X6: in every state the server can reach, every session of the registry is
    stored under its own [merchantAddress], and the timer it holds is still
    pending and was armed for that address: no session is left in the
    registry without the timeout that will remove it. *)
Theorem registered_session_has_pending_timer (evs : list Event) (st : State)
    (a : string) (s : PaymentSession) :
  run initial evs = Some st →
  activePayments st !! a = Some s →
  merchantAddress s = a
  ∧ timers st !! timeout s = Some a
  ∧ ∃ st', step st (TimerFired (timeout s)) = Some st'
           ∧ activePayments st' !! a = None.
Proof.
  intros Hrun Ha.
  assert (Hc : coherent st)
    by (eapply run_coherent; [apply coherent_initial|done]).
  assert (Hinv : sessions_have_timers st).
  { eapply run_sessions_have_timers; [apply coherent_initial| |done].
    intros a' s' H. simpl in H. by rewrite lookup_empty in H. }
  destruct Hc as (Hp & _). destruct (Hp _ _ Ha) as [_ Hm].
  split; [done|]. split; [by apply Hinv|].
  unfold step. rewrite (Hinv _ _ Ha). eexists. split; [reflexivity|].
  simpl. apply lookup_delete_eq.
Qed.

(** Clearing the timers of a list of sessions clears each of them. *)
Lemma timers_clear_sessions_in (l : list (string * PaymentSession)) (st : State)
    (kv : string * PaymentSession) :
  kv ∈ l →
  timers (foldr (λ kv s, clearTimeout (timeout kv.2) s) st l) !! timeout kv.2
  = None.
Proof.
  induction l as [|kv' l IH]; intros Hin; [by apply elem_of_nil in Hin|].
  simpl. apply elem_of_cons in Hin as [->|Hin]; [apply lookup_delete_eq|].
  destruct (decide (timeout kv'.2 = timeout kv.2)) as [->|Hne].
  - apply lookup_delete_eq.
  - rewrite lookup_delete_ne by done. by apply IH.
Qed.

(** X7: the cleanup of the payments in [shutdown] empties the registry and
    clears the timer of every session that was in it; a pending timer
    survives the cleanup exactly when no session of the registry holds
    it. *)
Theorem shutdown_clears_registered_timers (st : State) :
  activePayments (shutdown_payments st) = ∅
  ∧ (∀ a s, activePayments st !! a = Some s →
            timers (shutdown_payments st) !! timeout s = None)
  ∧ (∀ t a, timers (shutdown_payments st) !! t = Some a
            ↔ timers st !! t = Some a
              ∧ ∀ a' s, activePayments st !! a' = Some s → timeout s ≠ t).
Proof.
  unfold shutdown_payments. split; [done|].
  change (timers (with_payments ∅ ?s)) with (timers s).
  assert (Hin : ∀ a s, activePayments st !! a = Some s →
            timers (foldr (λ kv s0, clearTimeout (timeout kv.2) s0) st
                          (map_to_list (activePayments st))) !! timeout s = None).
  { intros a s Ha.
    apply (timers_clear_sessions_in _ st (a, s)). by apply elem_of_map_to_list. }
  split; [exact Hin|]. intros t a. split.
  - intros Ht.
    assert (Hno : ∀ a' s, activePayments st !! a' = Some s → timeout s ≠ t).
    { intros a' s Ha' <-. rewrite (Hin _ _ Ha') in Ht. done. }
    split; [|done]. rewrite timers_clear_sessions in Ht; [done|].
    intros [a' s] Hkv%elem_of_map_to_list. by eapply Hno.
  - intros [Ht Hno]. rewrite timers_clear_sessions; [done|].
    intros [a' s] Hkv%elem_of_map_to_list. by eapply Hno.
Qed.

(** A timer that is no longer pending stays so: identifiers of timers are
    not handed out twice. *)
Lemma step_timer_gone (st st' : State) (ev : Event) (t : nat) :
  (t < nextTimer st)%nat → timers st !! t = None →
  step st ev = Some st' →
  (t < nextTimer st')%nat ∧ timers st' !! t = None.
Proof.
  intros Hlt Ht Hstep.
  destruct ev as [body|r|r err|r res|r err|t'|w tx|i|i rs f|i|i|dt];
    simpl in Hstep.
  - injection Hstep as <-.
    destruct (initiatePaymentHandler_cases isEthereumAddress body st)
      as [(b & m & ->)|(addr & amt & ->)]; [done|].
    simpl. split; [lia|]. by rewrite lookup_insert_ne by lia.
  - destruct (suspended st !! r) as [[addr amt t0|amt]|]; try discriminate.
    by injection Hstep as <-.
  - destruct (suspended st !! r) as [[addr amt t0|amt]|]; try discriminate.
    injection Hstep as <-.
    destruct err as [|e]; simpl; (split; [done|]);
      apply lookup_delete_None; by right.
  - destruct (suspended st !! r) as [[addr amt t0|amt]|]; try discriminate.
    injection Hstep as <-. unfold handler_initiator_resolved.
    by destruct (pr_success res).
  - destruct (suspended st !! r) as [[addr amt t0|amt]|]; try discriminate.
    injection Hstep as <-. by destruct err.
  - destruct (timers st !! t') as [addr|]; try discriminate.
    injection Hstep as <-. simpl. split; [done|].
    apply lookup_delete_None. by right.
  - destruct (watchers st !! w) as [cb|]; try discriminate.
    injection Hstep as <-. unfold onTransaction.
    destruct (num_ge (tx_value tx) (w_amount cb)); [|done].
    simpl. split; [done|]. apply lookup_delete_None. by right.
  - destruct (has_client i (clients st)); try discriminate.
    by injection Hstep as <-.
  - by injection Hstep as <-.
  - by injection Hstep as <-.
  - by injection Hstep as <-.
  - by injection Hstep as <-.
Qed.

Lemma run_timer_gone (evs : list Event) (st st' : State) (t : nat) :
  (t < nextTimer st)%nat → timers st !! t = None →
  run st evs = Some st' →
  (t < nextTimer st')%nat ∧ timers st' !! t = None.
Proof.
  revert st. induction evs as [|ev evs IH]; intros st Hlt Ht Hrun;
    simpl in Hrun.
  - by injection Hrun as <-.
  - destruct (step st ev) as [s|] eqn:Hstep; [|discriminate].
    destruct (step_timer_gone st s ev t Hlt Ht Hstep). by apply (IH s).
Qed.

(** X8: once a transaction of at least the expected amount has been reported
    to the callback of a payment, the timeout of that payment never fires,
    whatever happens afterwards: no PAYMENT_TIMEOUT follows for it. *)
Theorem confirmed_payment_never_times_out (evs evs' : list Event)
    (st st1 st2 : State) (w : nat) (cb : Watcher) (tx : Tx) :
  run initial evs = Some st →
  watchers st !! w = Some cb →
  num_ge (tx_value tx) (w_amount cb) = true →
  step st (FeedTx w tx) = Some st1 →
  run st1 evs' = Some st2 →
  timers st2 !! w_timeout cb = None
  ∧ step st2 (TimerFired (w_timeout cb)) = None.
Proof.
  intros Hrun Hw Hge Hstep Hrun'.
  assert (Hc : coherent st)
    by (eapply run_coherent; [apply coherent_initial|done]).
  destruct Hc as (_ & _ & Hwat). destruct (Hwat _ _ Hw) as [Hlt _].
  unfold step in Hstep. rewrite Hw in Hstep. injection Hstep as <-.
  destruct (run_timer_gone evs' (onTransaction cb tx st) st2 (w_timeout cb))
    as [_ Ht]; try done.
  - unfold onTransaction. by rewrite Hge.
  - unfold onTransaction. rewrite Hge. simpl. apply lookup_delete_eq.
  - split; [done|]. unfold step. by rewrite Ht.
Qed.

End Timers.

(** ** Whole payments *)

Section Flows.

Variable isEthereumAddress : string → bool.

Local Abbreviation step := (step isEthereumAddress).
Local Abbreviation run := (run isEthereumAddress).
Local Abbreviation invalid_address := (invalid_address isEthereumAddress).

Ltac observe_simpl :=
  unfold broadcasts, responses; simpl;
  rewrite ?broadcasts_of_app, ?responses_of_app; simpl;
  rewrite ?app_nil_r, <- ?app_assoc; simpl.

(** X9: the payment that goes well.  From any state, a valid request, then the
    subscription set up, then a transaction of at least the amount, then
    the initiator reporting success: the observers are told "preparing",
    [transaction_confirmed] and [payment_success] in this order, the
    request is answered 200, and neither the session nor its timer is left
    behind. *)
Theorem confirmed_payment_flow (st : State) (amt : jsnum) (addr : string)
    (tx : Tx) (r : PaymentResult) :
  invalid_amount (JNum amt) = false →
  invalid_address (Some addr) = false →
  num_ge (tx_value tx) amt = true →
  pr_success r = true →
  ∃ st', run st [Request (mkBody (JNum amt) (Some addr));
                 MonitorResolved (nextReq st);
                 FeedTx (length (watchers st)) tx;
                 InitiatorResolved (nextReq st) r] = Some st'
    ∧ broadcasts st' = broadcasts st ++ [preparingMsg amt; confirmedMsg;
                                         successMsg (TLit (pr_message r)) amt]
    ∧ responses st' = responses st
                      ++ [(nextReq st,
                           mkResponse 200 (BSuccess (pr_message r)))]
    ∧ activePayments st' !! addr = None
    ∧ timers st' !! nextTimer st = None
    ∧ suspended st' !! nextReq st = None.
Proof.
  intros Hva Hvm Hge Hok. eexists. split.
  { rewrite run_monitoring by done. simpl.
    rewrite list_lookup_middle by done. unfold onTransaction. simpl.
    rewrite Hge. simpl. rewrite lookup_insert_eq.
    unfold handler_initiator_resolved. rewrite Hok. reflexivity. }
  split; [by observe_simpl|]. split; [by observe_simpl|].
  simpl. repeat split; apply lookup_delete_eq.
Qed.

(** X10: the payment that times out.  From any state, a valid request, then the
    subscription set up, then the timer: the observers are told "preparing"
    and [payment_failure] with PAYMENT_TIMEOUT, the session and the timer
    are gone, and the request is not answered: its invocation still awaits
    the initiator. *)
Theorem timed_out_payment_flow (st : State) (amt : jsnum) (addr : string) :
  invalid_amount (JNum amt) = false →
  invalid_address (Some addr) = false →
  ∃ st', run st [Request (mkBody (JNum amt) (Some addr));
                 MonitorResolved (nextReq st);
                 TimerFired (nextTimer st)] = Some st'
    ∧ broadcasts st' = broadcasts st ++ [preparingMsg amt; timeoutMsg]
    ∧ responses st' = responses st
    ∧ suspended st' !! nextReq st = Some (AwaitInitiator amt)
    ∧ activePayments st' !! addr = None
    ∧ timers st' !! nextTimer st = None.
Proof.
  intros Hva Hvm. eexists. split.
  { rewrite run_monitoring by done. simpl.
    rewrite lookup_insert_eq. reflexivity. }
  split; [by observe_simpl|]. split; [by observe_simpl|].
  simpl. split; [apply lookup_insert_eq|]. split; apply lookup_delete_eq.
Qed.

(** X11: the outcome of the initiator does not close the session.  From any
    state, a valid request, then the subscription set up, then the initiator
    reporting success with no transaction seen: the request is answered
    200 and [payment_success] is broadcast, yet the session stays in the
    registry with its timer pending, and when that timer fires the
    observers get a [payment_failure] with PAYMENT_TIMEOUT for the payment
    they were told had succeeded. *)
Theorem unconfirmed_success_times_out (st : State) (amt : jsnum)
    (addr : string) (r : PaymentResult) :
  invalid_amount (JNum amt) = false →
  invalid_address (Some addr) = false →
  pr_success r = true →
  ∃ st1 st2,
    run st [Request (mkBody (JNum amt) (Some addr));
            MonitorResolved (nextReq st);
            InitiatorResolved (nextReq st) r] = Some st1
    ∧ responses st1 = responses st
                      ++ [(nextReq st,
                           mkResponse 200 (BSuccess (pr_message r)))]
    ∧ activePayments st1 !! addr
      = Some (mkSession amt addr (now st) (nextTimer st))
    ∧ timers st1 !! nextTimer st = Some addr
    ∧ step st1 (TimerFired (nextTimer st)) = Some st2
    ∧ broadcasts st2 = broadcasts st
                       ++ [preparingMsg amt;
                           successMsg (TLit (pr_message r)) amt; timeoutMsg]
    ∧ activePayments st2 !! addr = None.
Proof.
  intros Hva Hvm Hok. do 2 eexists. split.
  { rewrite run_monitoring by done. simpl.
    rewrite lookup_insert_eq.
    unfold handler_initiator_resolved. rewrite Hok. reflexivity. }
  split; [by observe_simpl|].
  split; [simpl; apply lookup_insert_eq|].
  split; [simpl; apply lookup_insert_eq|].
  split.
  { unfold step. simpl. rewrite lookup_insert_eq. reflexivity. }
  split; [by observe_simpl|]. simpl. apply lookup_delete_eq.
Qed.

End Flows.

(** ** The price cache: the refresh loop and [stop] *)

Module PriceCacheMore.
Import PriceCacheService.

Lemma uniqueCoingeckoIds_elem (ids : list string) (c : string) :
  c ∈ uniqueCoingeckoIds ids ↔ c ∈ ids.
Proof.
  induction ids as [|d ids IH]; [done|]. simpl.
  rewrite !elem_of_cons, list_elem_of_filter, IH.
  destruct (decide (c = d)); tauto.
Qed.

Lemma uniqueCoingeckoIds_NoDup (ids : list string) :
  NoDup (uniqueCoingeckoIds ids).
Proof.
  induction ids as [|d ids IH]; [constructor|]. simpl.
  apply NoDup_cons. split; [|by apply NoDup_filter].
  intros [H _]%list_elem_of_filter. done.
Qed.

(** The entry of an asset after some iterations: that of the last one that
    stored a price for it, or the entry it had. *)
Lemma replay_lookup_from (h : list Landing) (m : gmap string Entry)
    (asset : string) :
  replay h m !! asset =
  match last_success asset h with
  | Some e => Some e
  | None => m !! asset
  end.
Proof.
  induction h as [|l h IH] using rev_ind; [done|].
  rewrite PriceCacheFacts.replay_snoc, PriceCacheFacts.last_success_snoc,
    PriceCacheFacts.cache_price_lookup, IH.
  by destruct (stores asset l).
Qed.

Lemma refresh_landings_snoc (ids : list string) (d : string)
    (net : nat → FetchOutcome * Z) :
  refresh_landings (ids ++ [d]) net
  = refresh_landings ids net
    ++ [mkLanding d (net (length ids)).1 (net (length ids)).2].
Proof.
  unfold refresh_landings. rewrite imap_app. simpl.
  by rewrite Nat.add_0_r.
Qed.

Lemma refresh_landings_coins (ids : list string) (net : nat → FetchOutcome * Z) :
  l_coin <$> refresh_landings ids net = ids.
Proof.
  induction ids as [|d ids IH] using rev_ind; [done|].
  by rewrite refresh_landings_snoc, fmap_app, IH.
Qed.

(** A coin that is not requested has no successful fetch. *)
Lemma last_success_not_requested (ids : list string)
    (net : nat → FetchOutcome * Z) (c : string) :
  c ∉ ids → last_success c (refresh_landings ids net) = None.
Proof.
  induction ids as [|d ids IH] using rev_ind; intros Hc; [done|].
  rewrite refresh_landings_snoc, PriceCacheFacts.last_success_snoc.
  unfold stores at 1. simpl.
  rewrite bool_decide_eq_false_2.
  - apply IH. intros H. apply Hc. apply elem_of_app. by left.
  - intros ->. apply Hc. apply elem_of_app. right. by left.
Qed.

(** Among requests that are pairwise distinct, the fetch that counts for a
    coin is its own. *)
Lemma last_success_requested (ids : list string)
    (net : nat → FetchOutcome * Z) (k : nat) (c : string) :
  NoDup ids → ids !! k = Some c →
  last_success c (refresh_landings ids net)
  = stores c (mkLanding c (net k).1 (net k).2).
Proof.
  induction ids as [|d ids IH] using rev_ind; intros Hnd Hk; [done|].
  apply NoDup_app in Hnd as (Hnd & Hd & _).
  rewrite refresh_landings_snoc, PriceCacheFacts.last_success_snoc.
  apply lookup_app_Some in Hk as [Hk|[Hlen Hk]].
  - assert (Hne : d ≠ c).
    { intros ->. apply (Hd c); [by eapply list_elem_of_lookup_2|by left]. }
    unfold stores at 1. simpl. rewrite bool_decide_eq_false_2 by done.
    by apply IH.
  - destruct (k - length ids)%nat as [|n] eqn:Hn; [|done].
    injection Hk as ->. assert (k = length ids) as -> by lia.
    destruct (stores c _) eqn:Hst; [done|].
    apply last_success_not_requested.
    intros H. apply (Hd c H). by left.
Qed.

Lemma requested_once (ids : list string) (c : string) :
  NoDup ids →
  length (filter (λ d, d = c) ids) = if decide (c ∈ ids) then 1%nat else 0%nat.
Proof.
  induction ids as [|d ids IH]; intros Hnd; [done|].
  apply NoDup_cons in Hnd as [Hd Hnd]. rewrite filter_cons.
  destruct (decide (d = c)) as [->|Hne]; simpl; rewrite (IH Hnd).
  - destruct (decide (c ∈ ids)) as [?|_]; [done|].
    destruct (decide (c ∈ c :: ids)) as [_|H]; [done|].
    destruct H. by left.
  - destruct (decide (c ∈ ids)) as [Hin|Hout].
    + by rewrite decide_True by (by right).
    + rewrite decide_False; [done|].
      intros [?|?]%elem_of_cons; done.
Qed.

(** X12: one refresh, request by request.  The refresh sends one request
    for each coin of the configuration, in the order of the first
    occurrences: a coin listed several times is requested once, and a coin
    that is not listed is not requested and keeps its entry.  A coin whose
    request yields a price that JavaScript takes for true gets that price
    with the time at which its own request ended; a coin whose request
    throws, or yields no price, zero or NaN, keeps the entry it had (or
    stays absent), whatever happens to the requests of the other coins. *)
Theorem fetchAndCacheAllPrices_lookup (coins : list string)
    (net : nat → FetchOutcome * Z) (m : gmap string Entry) :
  l_coin <$> refresh_landings (uniqueCoingeckoIds coins) net
  = uniqueCoingeckoIds coins
  ∧ (∀ c, length (filter (λ d, d = c) (uniqueCoingeckoIds coins))
          = if decide (c ∈ coins) then 1%nat else 0%nat)
  ∧ (∀ c, c ∉ coins → fetchAndCacheAllPrices coins net m !! c = m !! c)
  ∧ (∀ k c, uniqueCoingeckoIds coins !! k = Some c →
       fetchAndCacheAllPrices coins net m !! c =
       match (net k).1 with
       | Data (Some p) =>
           if num_truthy p then Some (mkEntry p (net k).2) else m !! c
       | _ => m !! c
       end).
Proof.
  split; [apply refresh_landings_coins|]. split; [|split].
  - intros c. rewrite requested_once by apply uniqueCoingeckoIds_NoDup.
    destruct (decide (c ∈ coins)) as [Hin|Hout].
    + by rewrite decide_True by (by apply uniqueCoingeckoIds_elem).
    + by rewrite decide_False by (by rewrite uniqueCoingeckoIds_elem).
  - intros c Hc. unfold fetchAndCacheAllPrices.
    rewrite replay_lookup_from, last_success_not_requested; [done|].
    by rewrite uniqueCoingeckoIds_elem.
  - intros k c Hk. unfold fetchAndCacheAllPrices.
    rewrite replay_lookup_from,
      (last_success_requested _ net k c (uniqueCoingeckoIds_NoDup coins) Hk).
    unfold stores. simpl. rewrite bool_decide_eq_true_2 by done.
    by destruct ((net k).1) as [|[p|]]; [| destruct (num_truthy p) |].
Qed.

(** X13: after any run of the service, [stop] leaves no interval scheduled and
    forgets the handle, so that no refresh tick can run any more; it keeps
    the cached prices; calling it again, or before any [initialize],
    changes nothing. *)
Theorem stop_cancels_schedule (evs : list Event) (s : Service) :
  run initial evs = Some s →
  intervals (stop s) = []
  ∧ refreshInterval (stop s) = None
  ∧ cachedPrices (stop s) = cachedPrices s
  ∧ (∀ i, step (stop s) (Tick i) = None)
  ∧ stop (stop s) = stop s
  ∧ stop initial = initial.
Proof.
  intros Hrun.
  assert (H : tracked s)
    by (by eapply (PriceCacheFacts.run_tracked evs initial)).
  unfold tracked in H.
  assert (Hs : intervals (stop s) = [] ∧ refreshInterval (stop s) = None
               ∧ cachedPrices (stop s) = cachedPrices s).
  { unfold stop. destruct (refreshInterval s) as [i|] eqn:Hr; simpl.
    - by rewrite H, PriceCacheFacts.clearInterval_own.
    - by rewrite H, Hr. }
  destruct Hs as (Hi & Hr & Hc). repeat split; try done.
  - intros i. simpl. by rewrite Hi.
  - unfold stop at 1. by rewrite Hr.
Qed.

(** X14: [stop] called while an [initialize] still awaits its first refresh does
    not call the initialisation off: when the refresh is over the periodic
    timer is installed all the same, and it is then the only one. *)
Theorem stop_during_initialize (evs : list Event) (s : Service) (n : nat) :
  run initial evs = Some s →
  initializing s = S n →
  ∃ s', run s [Stop; InitializeResumed] = Some s'
    ∧ intervals s' = [(nextInterval s, REFRESH_INTERVAL_MS)]
    ∧ refreshInterval s' = Some (nextInterval s).
Proof.
  intros Hrun Hn.
  assert (H : tracked s)
    by (by eapply (PriceCacheFacts.run_tracked evs initial)).
  unfold tracked in H. simpl. unfold stop.
  destruct (refreshInterval s) as [i|] eqn:Hr; simpl; rewrite Hn.
  - eexists. split; [reflexivity|]. simpl.
    by rewrite H, PriceCacheFacts.clearInterval_own.
  - eexists. split; [reflexivity|]. unfold startPeriodicRefresh. simpl.
    by rewrite Hr, H.
Qed.

End PriceCacheMore.

(** ** The further statements at the sample states *)

Lemma invalid_address_rejected_witness :
  let st' := initiatePaymentHandler sample_isEthereumAddress
               (mkBody (JNum (Fin 10%Q)) (Some "merchant")) initial in
  effects initial st' = [EBroadcast invalidAddressMsg;
                         ERespond 0
                           (mkResponse 400 (BError "Invalid merchant address"))]
  ∧ activePayments st' = activePayments initial
  ∧ timers st' = timers initial
  ∧ watchers st' = watchers initial
  ∧ suspended st' !! 0%nat = None
  ∧ nextReq st' = 1%nat.
Proof.
  apply (invalid_address_rejected sample_isEthereumAddress
           (mkBody (JNum (Fin 10%Q)) (Some "merchant")) initial (Fin 10%Q));
    reflexivity.
Defined.

Lemma invalid_amount_rejected_witness :
  let st' := initiatePaymentHandler sample_isEthereumAddress
               (mkBody (JStr "10") (Some sample_address)) initial in
  effects initial st' = [EBroadcast invalidAmountMsg;
                         ERespond 0 (mkResponse 400 (BError "Invalid amount"))]
  ∧ activePayments st' = activePayments initial
  ∧ timers st' = timers initial
  ∧ watchers st' = watchers initial
  ∧ suspended st' !! 0%nat = None.
Proof.
  apply (invalid_amount_rejected sample_isEthereumAddress
           (mkBody (JStr "10") (Some sample_address)) initial).
  reflexivity.
Defined.

Lemma no_request_answered_twice_witness :
  NoDup (answered two_requests)
  ∧ (∀ rid, rid ∈ answered two_requests →
            suspended two_requests !! rid = None
            ∧ (rid < nextReq two_requests)%nat)
  ∧ (∀ rid, is_Some (suspended two_requests !! rid) →
            (rid < nextReq two_requests)%nat).
Proof.
  apply (no_request_answered_twice sample_isEthereumAddress
           [Request sample_body; Request (mkBody (JNum NaN) None);
            MonitorResolved 0] two_requests).
  by vm_compute.
Defined.

Lemma broadcasts_delivered_in_order_witness :
  ∃ c', find_client 7 (clients settled) = Some c'
    ∧ ws_readyState c' = OPEN
    ∧ ws_faulty c' = false
    ∧ ws_inbox c' =
      [connectedMsg; preparingMsg (Fin 10%Q)]
      ++ drop (length (broadcasts pending_payment)) (broadcasts settled).
Proof.
  apply (broadcasts_delivered_in_order sample_isEthereumAddress
           [FeedTx 0 (mkTx (Fin 10%Q)); InitiatorResolved 0 sample_success]
           pending_payment settled 7
           (mkClient 7 OPEN false [connectedMsg; preparingMsg (Fin 10%Q)]));
    by vm_compute.
Defined.

Lemma registered_session_has_pending_timer_witness :
  merchantAddress (mkSession (Fin 10%Q) sample_address 0 0) = sample_address
  ∧ timers pending_payment !! 0%nat = Some sample_address
  ∧ ∃ st', step sample_isEthereumAddress pending_payment (TimerFired 0)
           = Some st'
           ∧ activePayments st' !! sample_address = None.
Proof.
  apply (registered_session_has_pending_timer sample_isEthereumAddress
           [WsConnect 7; Request sample_body; MonitorResolved 0]
           pending_payment sample_address
           (mkSession (Fin 10%Q) sample_address 0 0));
    by vm_compute.
Defined.

Lemma confirmed_payment_never_times_out_witness :
  timers settled !! 0%nat = None
  ∧ step sample_isEthereumAddress settled (TimerFired 0) = None.
Proof.
  apply (confirmed_payment_never_times_out sample_isEthereumAddress
           [WsConnect 7; Request sample_body; MonitorResolved 0]
           [InitiatorResolved 0 sample_success]
           pending_payment confirmed_once settled 0
           (mkWatcher sample_address (Fin 10%Q) 0) (mkTx (Fin 10%Q)));
    by vm_compute.
Defined.

Lemma confirmed_payment_flow_witness :
  ∃ st', run sample_isEthereumAddress initial
             [Request sample_body; MonitorResolved 0;
              FeedTx 0 (mkTx (Fin 10%Q)); InitiatorResolved 0 sample_success]
         = Some st'
    ∧ broadcasts st'
      = [preparingMsg (Fin 10%Q); confirmedMsg;
         successMsg (TLit "Payment received") (Fin 10%Q)]
    ∧ responses st'
      = [(0%nat, mkResponse 200 (BSuccess "Payment received"))]
    ∧ activePayments st' !! sample_address = None
    ∧ timers st' !! 0%nat = None
    ∧ suspended st' !! 0%nat = None.
Proof.
  apply (confirmed_payment_flow sample_isEthereumAddress initial (Fin 10%Q)
           sample_address (mkTx (Fin 10%Q)) sample_success); reflexivity.
Defined.

Lemma timed_out_payment_flow_witness :
  ∃ st', run sample_isEthereumAddress initial
             [Request sample_body; MonitorResolved 0; TimerFired 0] = Some st'
    ∧ broadcasts st' = [preparingMsg (Fin 10%Q); timeoutMsg]
    ∧ responses st' = []
    ∧ suspended st' !! 0%nat = Some (AwaitInitiator (Fin 10%Q))
    ∧ activePayments st' !! sample_address = None
    ∧ timers st' !! 0%nat = None.
Proof.
  apply (timed_out_payment_flow sample_isEthereumAddress initial (Fin 10%Q)
           sample_address); reflexivity.
Defined.

Lemma unconfirmed_success_times_out_witness :
  ∃ st1 st2,
    run sample_isEthereumAddress initial
        [Request sample_body; MonitorResolved 0;
         InitiatorResolved 0 sample_success] = Some st1
    ∧ responses st1 = [(0%nat, mkResponse 200 (BSuccess "Payment received"))]
    ∧ activePayments st1 !! sample_address
      = Some (mkSession (Fin 10%Q) sample_address 0 0)
    ∧ timers st1 !! 0%nat = Some sample_address
    ∧ step sample_isEthereumAddress st1 (TimerFired 0) = Some st2
    ∧ broadcasts st2
      = [preparingMsg (Fin 10%Q);
         successMsg (TLit "Payment received") (Fin 10%Q); timeoutMsg]
    ∧ activePayments st2 !! sample_address = None.
Proof.
  apply (unconfirmed_success_times_out sample_isEthereumAddress initial
           (Fin 10%Q) sample_address sample_success); reflexivity.
Defined.

Lemma stop_cancels_schedule_witness :
  PriceCacheService.intervals
    (PriceCacheService.stop PriceCacheService.after_thrice) = []
  ∧ PriceCacheService.refreshInterval
      (PriceCacheService.stop PriceCacheService.after_thrice) = None
  ∧ PriceCacheService.cachedPrices
      (PriceCacheService.stop PriceCacheService.after_thrice)
    = PriceCacheService.cachedPrices PriceCacheService.after_thrice
  ∧ (∀ i, PriceCacheService.step
            (PriceCacheService.stop PriceCacheService.after_thrice)
            (PriceCacheService.Tick i) = None)
  ∧ PriceCacheService.stop
      (PriceCacheService.stop PriceCacheService.after_thrice)
    = PriceCacheService.stop PriceCacheService.after_thrice
  ∧ PriceCacheService.stop PriceCacheService.initial
    = PriceCacheService.initial.
Proof.
  apply (PriceCacheMore.stop_cancels_schedule PriceCacheService.thrice
           PriceCacheService.after_thrice).
  reflexivity.
Defined.

Lemma stop_during_initialize_witness :
  ∃ s', PriceCacheService.run PriceCacheService.initializing_once
          [PriceCacheService.Stop; PriceCacheService.InitializeResumed]
        = Some s'
    ∧ PriceCacheService.intervals s'
      = [(0%nat, PriceCacheService.REFRESH_INTERVAL_MS)]
    ∧ PriceCacheService.refreshInterval s' = Some 0%nat.
Proof.
  apply (PriceCacheMore.stop_during_initialize [PriceCacheService.Initialize]
           PriceCacheService.initializing_once 0); reflexivity.
Defined.
